(** * A shallow embedding of the 3D mesh viewer ([src/app/mesh-viewer.tsx])

    The viewer is one React component.  Four parts of it carry behaviour:

    - [createMeshFromObject], the geometry builder (faces to indexed
      triangle buffers);
    - [handleJsonSubmit], the load operation (parse, clear, rebuild);
    - [generateColor], the golden-angle colour generator;
    - [handleMouseDown] / [handleMouseMove] / [handleWheel], the orbit camera.

    JavaScript values that come out of [JSON.parse] are dynamically typed, so
    the builder and the load operation are embedded over a type of JSON
    values, with property reads that raise [TypeError] where JavaScript does.
    The TypeScript interfaces ([Vertex], [Face], [Object3D], [SceneData]) are
    records that inject into those values.  Numbers are binary64 floats
    (Rocq's primitive [float]), except in the mouse handlers of the camera,
    whose trigonometry is idealised over the real numbers; the wheel
    handler, which has none, is embedded in binary64.

    The modules after the camera serve the further properties at the end of
    the file: [Mesh] writes the builder as list functions, [Wheel64] runs
    the binary64 wheel handler from the mounted camera, [Palette] bounds the
    colours, and [Tint] embeds the colour index of an object, [parseInt] of
    its name in radix 36. *)

From Stdlib Require Import ZArith NArith List Bool Ascii String Floats Lia.
From Stdlib Require Import DecimalString QArith Qround Reals Lra.
Import ListNotations.

Close Scope Q_scope.

Set Implicit Arguments.
Set Warnings "-register-all".

(** ** JavaScript values *)

Module JS.

(** A JavaScript string is a sequence of UTF-16 code units. *)
Definition JSString := list N.

Definition js (s : string) : JSString :=
  map N_of_ascii (list_ascii_of_string s).

Fixpoint str_eqb (a b : JSString) : bool :=
  match a, b with
  | [], [] => true
  | c :: a', d :: b' => N.eqb c d && str_eqb a' b'
  | _, _ => false
  end.

(** The values [JSON.parse] can return, and [undefined], which reading an
    absent property yields. *)
Inductive JSValue : Type :=
| JUndefined
| JNull
| JBool (b : bool)
| JNum (n : float)
| JStr (s : JSString)
| JArr (elems : list JSValue)
| JObj (props : list (JSString * JSValue)).

Inductive JSError := SyntaxError | TypeError.

(** Outcome of evaluating an expression or statement. *)
Inductive Completion (A : Type) : Type :=
| Return (a : A)
| Throw (e : JSError).
Arguments Return {A} a.
Arguments Throw {A} e.

(** Code that updates a store of type [St] and may throw.  The store reached
    when the exception is raised is kept: assignments made before a [throw]
    are not undone by the enclosing [catch]. *)
Definition Eff (St A : Type) : Type := St -> St * Completion A.

Definition ret {St A} (a : A) : Eff St A := fun s => (s, Return a).

Definition bind {St A B} (m : Eff St A) (k : A -> Eff St B) : Eff St B :=
  fun s => match m s with
           | (s', Return a) => k a s'
           | (s', Throw e) => (s', Throw e)
           end.

Definition lift {St A} (c : Completion A) : Eff St A := fun s => (s, c).

Definition modify {St} (f : St -> St) : Eff St unit := fun s => (f s, Return tt).

Definition get_store {St} : Eff St St := fun s => (s, Return s).

(** Own data property [k] of an object literal; of two members with one key
    the later one is the property's value. *)
Fixpoint own (k : JSString) (props : list (JSString * JSValue)) : option JSValue :=
  match props with
  | [] => None
  | (k', v) :: rest =>
      match own k rest with
      | Some w => Some w
      | None => if str_eqb k k' then Some v else None
      end
  end.

Definition float_of_nat (n : nat) : float :=
  PrimFloat.of_uint63 (Uint63.of_Z (Z.of_nat n)).

(** [v.k], for the property names the component reads: [objects], [faces],
    [vertices], [normal], [x], [y], [z], [name].  None of them is an array
    index or inherited from a prototype, so on anything but an object with
    that own property the read gives [undefined]; on [null] and [undefined]
    it throws. *)
Definition Get (v : JSValue) (k : JSString) : Completion JSValue :=
  match v with
  | JUndefined | JNull => Throw TypeError
  | JObj props =>
      Return (match own k props with Some w => w | None => JUndefined end)
  | JBool _ | JNum _ | JStr _ | JArr _ => Return JUndefined
  end.

(** [v.length === k] for a literal [k].  Arrays and strings have a [length]
    of their own; an object has one only as an own property, and [===]
    holds when that property is a number equal to [k]. *)
Definition length_is (v : JSValue) (k : nat) : Completion bool :=
  match v with
  | JUndefined | JNull => Throw TypeError
  | JArr l => Return (Nat.eqb (List.length l) k)
  | JStr s => Return (Nat.eqb (List.length s) k)
  | JObj props =>
      Return (match own (js "length") props with
              | Some (JNum n) => PrimFloat.eqb n (float_of_nat k)
              | _ => false
              end)
  | JBool _ | JNum _ => Return false
  end.

Section ForEach.
Variable Store : Type.
Variable callback : JSValue -> nat -> Eff Store unit.

Fixpoint forEach_from (index : nat) (elems : list JSValue) : Eff Store unit :=
  match elems with
  | [] => ret tt
  | v :: rest => bind (callback v index) (fun _ => forEach_from (S index) rest)
  end.

(** [v.forEach(callback)]: only arrays have a callable [forEach]; arrays
    built by [JSON.parse] have no holes. *)
Definition forEach (v : JSValue) : Eff Store unit :=
  match v with
  | JArr elems => forEach_from 0 elems
  | _ => lift (Throw TypeError)
  end.
End ForEach.

(** [ToBoolean]. *)
Definition truthy (v : JSValue) : bool :=
  match v with
  | JUndefined | JNull => false
  | JBool b => b
  | JNum n => negb (PrimFloat.eqb n 0 || PrimFloat.is_nan n)
  | JStr s => negb (Nat.eqb (List.length s) 0)
  | JArr _ | JObj _ => true
  end.

Definition has_own (k : JSString) (props : list (JSString * JSValue)) : bool :=
  match own k props with Some _ => true | None => false end.

(** [ToPrimitive] on a value from [JSON.parse] throws exactly when the
    conversion meets an object whose own [toString] property shadows
    [Object.prototype.toString] (it is data, not callable, and [valueOf]
    does not yield a primitive either).  Arrays convert by joining their
    elements, so they throw when an element does.  [ToString] and
    [ToNumber] throw in the same cases. *)
Fixpoint toPrimitive_throws (v : JSValue) : bool :=
  match v with
  | JObj props => has_own (js "toString") props
  | JArr elems => existsb toPrimitive_throws elems
  | _ => false
  end.

Definition is_number (v : JSValue) : bool :=
  match v with
  | JNum _ => true
  | _ => false
  end.

(** Own enumerable properties, as the spread [{...v}] copies them. *)
Definition index_key (i : nat) : JSString :=
  js (NilEmpty.string_of_uint (Nat.to_uint i)).

Fixpoint indexed {A} (f : A -> JSValue) (i : nat) (l : list A) : list (JSString * JSValue) :=
  match l with
  | [] => []
  | a :: rest => (index_key i, f a) :: indexed f (S i) rest
  end.

Definition ownProperties (v : JSValue) : list (JSString * JSValue) :=
  match v with
  | JObj props => props
  | JArr elems => indexed (fun e => e) 0 elems
  | JStr s => indexed (fun c => JStr [c]) 0 s
  | _ => []
  end.

End JS.

Import JS.

Declare Scope eff_scope.
Delimit Scope eff_scope with eff.
Notation "x <- c1 ;; c2" := (bind c1 (fun x => c2))
  (at level 61, c1 at next level, right associativity) : eff_scope.
Notation "c1 ;; c2" := (bind c1 (fun _ => c2))
  (at level 61, right associativity) : eff_scope.

(** ** The TypeScript interfaces of the component *)

(** [Vertex] and [Normal] are the same structural type [{x, y, z}]. *)
Record Vertex : Type := { x : float; y : float; z : float }.
Definition Normal : Type := Vertex.

Record Face : Type := { vertices : list Vertex; normal : Normal }.

Record Object3D : Type := { faces : list Face; name : option JSString }.

Record SceneData : Type := { objects : list Object3D }.

(** The JavaScript value with the shape the interface describes. *)
Definition js_of_Vertex (v : Vertex) : JSValue :=
  JObj [(js "x", JNum (x v)); (js "y", JNum (y v)); (js "z", JNum (z v))].

Definition js_of_Face (f : Face) : JSValue :=
  JObj [(js "vertices", JArr (map js_of_Vertex (vertices f)));
        (js "normal", js_of_Vertex (normal f))].

Definition js_of_Object3D (o : Object3D) : JSValue :=
  JObj ((js "faces", JArr (map js_of_Face (faces o))) ::
        match name o with
        | Some s => [(js "name", JStr s)]
        | None => []
        end).

Definition js_of_SceneData (d : SceneData) : JSValue :=
  JObj [(js "objects", JArr (map js_of_Object3D (objects d)))].

Definition point (a b c : float) : Vertex := {| x := a; y := b; z := c |}.

(** The three numbers a vertex or a normal puts into a buffer. *)
Definition coords (v : Vertex) : list JSValue :=
  [JNum (x v); JNum (y v); JNum (z v)].

(** ** Geometry builder: [createMeshFromObject] *)

Module Geometry.
Local Open Scope eff_scope.

(** The four locals the face loop updates: the arrays [vertices], [normals]
    and [indices], and the counter [vertexIndex].  The counter and the
    indices are JavaScript numbers holding small non-negative integers, on
    which [+] is exact; they are natural numbers here. *)
Record Buffers : Type := {
  b_vertices : list JSValue;
  b_normals : list JSValue;
  b_indices : list nat;
  vertexIndex : nat
}.

Definition emptyBuffers : Buffers :=
  {| b_vertices := []; b_normals := []; b_indices := []; vertexIndex := 0 |}.

Definition push_vertices (l : list JSValue) (b : Buffers) : Buffers :=
  {| b_vertices := b_vertices b ++ l; b_normals := b_normals b;
     b_indices := b_indices b; vertexIndex := vertexIndex b |}.

Definition push_normals (l : list JSValue) (b : Buffers) : Buffers :=
  {| b_vertices := b_vertices b; b_normals := b_normals b ++ l;
     b_indices := b_indices b; vertexIndex := vertexIndex b |}.

Definition push_indices (l : list nat) (b : Buffers) : Buffers :=
  {| b_vertices := b_vertices b; b_normals := b_normals b;
     b_indices := b_indices b ++ l; vertexIndex := vertexIndex b |}.

Definition advance (k : nat) (b : Buffers) : Buffers :=
  {| b_vertices := b_vertices b; b_normals := b_normals b;
     b_indices := b_indices b; vertexIndex := vertexIndex b + k |}.

(** The callback of [face.vertices.forEach]:
    [vertices.push(vertex.x, vertex.y, vertex.z);
     normals.push(face.normal.x, face.normal.y, face.normal.z)]. *)
Definition vertexCallback (face vertex : JSValue) : Eff Buffers unit :=
  vx <- lift (Get vertex (js "x")) ;;
  vy <- lift (Get vertex (js "y")) ;;
  vz <- lift (Get vertex (js "z")) ;;
  modify (push_vertices [vx; vy; vz]) ;;
  n1 <- lift (Get face (js "normal")) ;;
  nx <- lift (Get n1 (js "x")) ;;
  n2 <- lift (Get face (js "normal")) ;;
  ny <- lift (Get n2 (js "y")) ;;
  n3 <- lift (Get face (js "normal")) ;;
  nz <- lift (Get n3 (js "z")) ;;
  modify (push_normals [nx; ny; nz]).

(** The callback of [object.faces.forEach]. *)
Definition faceCallback (face : JSValue) : Eff Buffers unit :=
  vs <- lift (Get face (js "vertices")) ;;
  quad <- lift (length_is vs 4) ;;
  if quad : bool then
    vs <- lift (Get face (js "vertices")) ;;
    forEach (fun vertex _ => vertexCallback face vertex) vs ;;
    b <- get_store ;;
    let i := vertexIndex b in
    modify (push_indices [i; i + 1; i + 2; i; i + 2; i + 3]) ;;
    modify (advance 4)
  else
    vs <- lift (Get face (js "vertices")) ;;
    tri <- lift (length_is vs 3) ;;
    if tri : bool then
      vs <- lift (Get face (js "vertices")) ;;
      forEach (fun vertex _ => vertexCallback face vertex) vs ;;
      b <- get_store ;;
      let i := vertexIndex b in
      modify (push_indices [i; i + 1; i + 2]) ;;
      modify (advance 3)
    else ret tt.

(** [THREE.BufferGeometry] after the two [setAttribute] calls and
    [setIndex].  [position] and [normal] hold the arrays handed to
    [Float32BufferAttribute], three entries to a vertex. *)
Record BufferGeometry : Type := {
  position : list JSValue;
  g_normal : list JSValue;
  index : list nat
}.

(** The [THREE.Group] returned: a mesh and a wireframe over one geometry.
    The materials and the edge set that [EdgesGeometry] derives are not
    kept.  The face colour is [generateColor] of an index that comes from
    [parseInt] in radix 36, which the language lets an implementation
    approximate on long digit strings, or from [Math.random]. *)
Record Group : Type := { geometry : BufferGeometry }.

(** Number of vertices of an attribute with item size 3, and of triangles
    of an index list. *)
Definition vertexCount (g : Group) : nat := List.length (position (geometry g)) / 3.
Definition triangleCount (g : Group) : nat := List.length (index (geometry g)) / 3.

(** Buffers whose arrays agree with the vertex counter: three positions and
    three normal components to a vertex, and no index at or past the
    counter. *)
Definition consistent (b : Buffers) : Prop :=
  List.length (b_vertices b) = 3 * vertexIndex b
  /\ List.length (b_normals b) = 3 * vertexIndex b
  /\ Forall (fun k => k < vertexIndex b) (b_indices b).

(** Buffers that already hold seven vertices' worth of counter. *)
Definition sevenVertices : Buffers :=
  {| b_vertices := []; b_normals := []; b_indices := []; vertexIndex := 7 |}.

(** Buffers [b'] that hold [k] vertices more than [b], with the indices and
    the counter of [b]. *)
Definition grown (k : nat) (b b' : Buffers) : Prop :=
  List.length (b_vertices b') = List.length (b_vertices b) + 3 * k
  /\ List.length (b_normals b') = List.length (b_normals b) + 3 * k
  /\ b_indices b' = b_indices b
  /\ vertexIndex b' = vertexIndex b.

Definition totalVertices (gs : list Group) : nat := list_sum (map vertexCount gs).
Definition totalTriangles (gs : list Group) : nat := list_sum (map triangleCount gs).

(** The face loop alone: the buffers when it completes. *)
Definition buildBuffers (object : JSValue) : Completion Buffers :=
  match Get object (js "faces") with
  | Throw e => Throw e
  | Return fs =>
      match forEach (fun face _ => faceCallback face) fs emptyBuffers with
      | (b, Return _) => Return b
      | (_, Throw e) => Throw e
      end
  end.

(** [new Float32Array(array)] converts every entry with [ToNumber]. *)
Definition Float32BufferAttribute (array : list JSValue) : Completion (list JSValue) :=
  if existsb toPrimitive_throws array then Throw TypeError else Return array.

(** The argument of [generateColor]:
    [object.name ? parseInt(object.name, 36) : Math.random() * 1000];
    [parseInt] converts its argument with [ToString].  Only whether the
    evaluation completes is kept. *)
Definition colorSeed (object : JSValue) : Completion unit :=
  match Get object (js "name") with
  | Throw e => Throw e
  | Return nm =>
      if truthy nm && toPrimitive_throws nm then Throw TypeError else Return tt
  end.

Definition createMeshFromObject (object : JSValue) : Completion Group :=
  match buildBuffers object with
  | Throw e => Throw e
  | Return b =>
      match Float32BufferAttribute (b_vertices b) with
      | Throw e => Throw e
      | Return pos =>
          match Float32BufferAttribute (b_normals b) with
          | Throw e => Throw e
          | Return nor =>
              match colorSeed object with
              | Throw e => Throw e
              | Return _ =>
                  Return {| geometry := {| position := pos; g_normal := nor;
                                           index := b_indices b |} |}
              end
          end
      end
  end.

End Geometry.

(** ** [JSON.parse]

    The built-in the load operation calls.  It is a recursive-descent reader
    of the JSON grammar (ECMA-404) that builds arrays in element order and
    objects in member order, and rounds number literals to the nearest
    binary64 value. *)

Module JSON.
Local Open Scope N_scope.

Definition is_ws (c : N) : bool :=
  (c =? 32) || (c =? 9) || (c =? 10) || (c =? 13).

Fixpoint skip_ws (s : JSString) : JSString :=
  match s with
  | c :: r => if is_ws c then skip_ws r else s
  | [] => []
  end.

Definition digit (c : N) : option Z :=
  if (48 <=? c) && (c <=? 57) then Some (Z.of_N (c - 48)) else None.

Definition hex (c : N) : option N :=
  if (48 <=? c) && (c <=? 57) then Some (c - 48)
  else if (97 <=? c) && (c <=? 102) then Some (c - 87)
  else if (65 <=? c) && (c <=? 70) then Some (c - 55)
  else None.

Definition hex4 (a b c d : N) : option N :=
  match hex a, hex b, hex c, hex d with
  | Some h1, Some h2, Some h3, Some h4 => Some (((h1 * 16 + h2) * 16 + h3) * 16 + h4)
  | _, _, _, _ => None
  end.

(** The single-character escapes: quote, backslash, slash, b, f, n, r, t. *)
Definition escape (c : N) : option N :=
  if c =? 34 then Some 34
  else if c =? 92 then Some 92
  else if c =? 47 then Some 47
  else if c =? 98 then Some 8
  else if c =? 102 then Some 12
  else if c =? 110 then Some 10
  else if c =? 114 then Some 13
  else if c =? 116 then Some 9
  else None.

Definition consTo (c : N) (r : option (JSString * JSString)) : option (JSString * JSString) :=
  match r with
  | Some (cs, rest) => Some (c :: cs, rest)
  | None => None
  end.

(** The characters of a string literal after its opening quote, up to and
    including the closing quote. *)
Fixpoint parse_chars (s : JSString) : option (JSString * JSString) :=
  match s with
  | [] => None
  | c :: r =>
      if c =? 34 then Some ([], r)
      else if c =? 92 then
        match r with
        | [] => None
        | e :: r1 =>
            if e =? 117 then
              match r1 with
              | h1 :: h2 :: h3 :: h4 :: r2 =>
                  match hex4 h1 h2 h3 h4 with
                  | Some u => consTo u (parse_chars r2)
                  | None => None
                  end
              | _ => None
              end
            else
              match escape e with
              | Some u => consTo u (parse_chars r1)
              | None => None
              end
        end
      else if c <? 32 then None
      else consTo c (parse_chars r)
  end.

(** A maximal run of decimal digits appended to [acc]; the count of digits
    read comes with it. *)
Fixpoint digits (s : JSString) (acc : Z) (count : nat) : Z * nat * JSString :=
  match s with
  | c :: r =>
      match digit c with
      | Some d => digits r (acc * 10 + d)%Z (S count)
      | None => (acc, count, s)
      end
  | [] => (acc, count, s)
  end.

(** The binary64 value nearest to [(-1)^neg * m * 10^e], ties to even. *)
Definition decimal_to_float (neg : bool) (m e : Z) : float :=
  match m with
  | Zpos p =>
      if (0 <=? e)%Z then
        SF2Prim (binary_normalize prec emax
                   (if neg then Zneg p * 10 ^ e else Zpos p * 10 ^ e)%Z 0%Z false)
      else
        match (10 ^ (- e))%Z with
        | Zpos q =>
            SF2Prim (SFdiv prec emax (S754_finite neg p 0%Z) (S754_finite false q 0%Z))
        | _ => nan
        end
  | _ => if neg then neg_zero else zero
  end.

Definition parse_exponent (neg : bool) (m : Z) (k : nat) (s : JSString)
  : option (float * JSString) :=
  match s with
  | c :: r =>
      if (c =? 101) || (c =? 69) then
        let '(eneg, r1) :=
          match r with
          | sg :: r' =>
              if sg =? 45 then (true, r')
              else if sg =? 43 then (false, r')
              else (false, r)
          | [] => (false, r)
          end in
        match digits r1 0%Z 0%nat with
        | (_, O, _) => None
        | (e, _, rest) =>
            Some (decimal_to_float neg m ((if eneg then - e else e) - Z.of_nat k)%Z, rest)
        end
      else Some (decimal_to_float neg m (- Z.of_nat k)%Z, s)
  | [] => Some (decimal_to_float neg m (- Z.of_nat k)%Z, s)
  end.

Definition parse_fraction (neg : bool) (ip : Z) (s : JSString)
  : option (float * JSString) :=
  match s with
  | c :: r =>
      if c =? 46 then
        match digits r ip 0%nat with
        | (_, O, _) => None
        | (m, k, rest) => parse_exponent neg m k rest
        end
      else parse_exponent neg ip 0%nat s
  | [] => parse_exponent neg ip 0%nat s
  end.

(** A number literal: an optional minus sign; the integer part, a single
    zero or a digit run that does not start with zero; an optional fraction
    of a point and at least one digit; an optional exponent of [e] or [E],
    an optional sign and at least one digit. *)
Definition parse_number (s : JSString) : option (float * JSString) :=
  let '(neg, s1) :=
    match s with
    | c :: r => if c =? 45 then (true, r) else (false, s)
    | [] => (false, s)
    end in
  match s1 with
  | c :: r =>
      match digit c with
      | Some d =>
          if (d =? 0)%Z then parse_fraction neg 0%Z r
          else let '(ip, _, rest) := digits r d 1%nat in parse_fraction neg ip rest
      | None => None
      end
  | [] => None
  end.

Fixpoint prefix (p s : JSString) : option JSString :=
  match p, s with
  | [], _ => Some s
  | a :: p', b :: s' => if a =? b then prefix p' s' else None
  | _ :: _, [] => None
  end.

(** [parse_value], [parse_elements] (after an opening bracket or a comma of
    an array) and [parse_members] (likewise of an object).  Every call
    passes less fuel on; [JSON_parse] gives enough for the whole text. *)
Fixpoint parse_value (fuel : nat) (s : JSString) : option (JSValue * JSString) :=
  match fuel with
  | O => None
  | S fuel' =>
      match skip_ws s with
      | [] => None
      | c :: r =>
          if c =? 123 then
            match skip_ws r with
            | c1 :: r1 =>
                if c1 =? 125 then Some (JObj [], r1)
                else parse_members fuel' r []
            | [] => None
            end
          else if c =? 91 then
            match skip_ws r with
            | c1 :: r1 =>
                if c1 =? 93 then Some (JArr [], r1)
                else parse_elements fuel' r []
            | [] => None
            end
          else if c =? 34 then
            match parse_chars r with
            | Some (str, rest) => Some (JStr str, rest)
            | None => None
            end
          else if c =? 116 then
            match prefix (js "true") (c :: r) with
            | Some rest => Some (JBool true, rest)
            | None => None
            end
          else if c =? 102 then
            match prefix (js "false") (c :: r) with
            | Some rest => Some (JBool false, rest)
            | None => None
            end
          else if c =? 110 then
            match prefix (js "null") (c :: r) with
            | Some rest => Some (JNull, rest)
            | None => None
            end
          else
            match parse_number (c :: r) with
            | Some (n, rest) => Some (JNum n, rest)
            | None => None
            end
      end
  end

with parse_elements (fuel : nat) (s : JSString) (acc : list JSValue)
  : option (JSValue * JSString) :=
  match fuel with
  | O => None
  | S fuel' =>
      match parse_value fuel' s with
      | Some (v, rest) =>
          match skip_ws rest with
          | c :: r =>
              if c =? 44 then parse_elements fuel' r (v :: acc)
              else if c =? 93 then Some (JArr (rev (v :: acc)), r)
              else None
          | [] => None
          end
      | None => None
      end
  end

with parse_members (fuel : nat) (s : JSString) (acc : list (JSString * JSValue))
  : option (JSValue * JSString) :=
  match fuel with
  | O => None
  | S fuel' =>
      match skip_ws s with
      | q :: r =>
          if q =? 34 then
            match parse_chars r with
            | Some (key, r1) =>
                match skip_ws r1 with
                | colon :: r2 =>
                    if colon =? 58 then
                      match parse_value fuel' r2 with
                      | Some (v, r3) =>
                          match skip_ws r3 with
                          | c :: r4 =>
                              if c =? 44 then parse_members fuel' r4 ((key, v) :: acc)
                              else if c =? 125 then Some (JObj (rev ((key, v) :: acc)), r4)
                              else None
                          | [] => None
                          end
                      | None => None
                      end
                    else None
                | [] => None
                end
            | None => None
            end
          else None
      | [] => None
      end
  end.

(** [JSON.parse(text)]: one value, white space around it, nothing else;
    [SyntaxError] otherwise. *)
Definition JSON_parse (text : JSString) : Completion JSValue :=
  match parse_value (2 * List.length text + 2) text with
  | Some (v, rest) =>
      match skip_ws rest with
      | [] => Return v
      | _ :: _ => Throw SyntaxError
      end
  | None => Throw SyntaxError
  end.

End JSON.

(** ** Scene mutator: [handleJsonSubmit] *)

Module Load.
Import Geometry JSON.
Local Open Scope eff_scope.

(** What the component puts under the scene. *)
Inductive SceneChild : Type :=
| AmbientLight (color : N)
| DirectionalLight (color : N) (intensity : float) (at_position : float * float * float)
| GridHelper (size divisions : N) (color1 color2 : N)
| MeshGroup (g : Group).

(** [scene.children]. *)
Definition Scene : Type := list SceneChild.

(** The refs and state the handler touches: [sceneRef.current], and the
    state variables [jsonInput] and [error]. *)
Record Viewer : Type := {
  sceneRef : option Scene;
  jsonInput : JSString;
  error : JSString
}.

(** The scene the mount effect leaves: the grid helper alone. *)
Definition mountedScene : Scene := [GridHelper 10 10 0x888888 0x444444].

Definition add (child : SceneChild) : Eff Scene unit :=
  modify (fun children => children ++ [child]).

(** [while (children.length > 0) remove(children[0])]. *)
Fixpoint clear_loop (children : Scene) : Scene :=
  match children with
  | [] => []
  | _ :: rest => clear_loop rest
  end.

(** The template literal [`object${index}`]. *)
Definition objectName (index : nat) : JSString := js "object" ++ index_key index.

(** [{...obj, name: obj.name || `object${index}`}] *)
Definition withName (obj : JSValue) (index : nat) : Completion JSValue :=
  let copied := ownProperties obj in
  match Get obj (js "name") with
  | Throw e => Throw e
  | Return nm =>
      Return (JObj (copied ++
                    [(js "name", if truthy nm then nm else JStr (objectName index))]))
  end.

(** The callback of [data.objects.forEach]. *)
Definition objectCallback (obj : JSValue) (index : nat) : Eff Scene unit :=
  object <- lift (withName obj index) ;;
  mesh <- lift (createMeshFromObject object) ;;
  add (MeshGroup mesh).

(** The body of the [try] block, up to [setError('')]. *)
Definition tryBlock (text : JSString) : Eff Scene unit :=
  data <- lift (JSON_parse text) ;;
  modify clear_loop ;;
  add (AmbientLight 0x404040) ;;
  add (DirectionalLight 0xffffff 0.5 (1, 1, 1)%float) ;;
  add (GridHelper 10 10 0x888888 0x444444) ;;
  objs <- lift (Get data (js "objects")) ;;
  forEach objectCallback objs.

Definition errorMessage : JSString := js "Invalid JSON format. Please check your input.".

Definition handleJsonSubmit (v : Viewer) : Viewer :=
  match sceneRef v with
  | None => v
  | Some scene =>
      match tryBlock (jsonInput v) scene with
      | (scene', Return _) =>
          {| sceneRef := Some scene'; jsonInput := jsonInput v; error := [] |}
      | (scene', Throw _) =>
          {| sceneRef := Some scene'; jsonInput := jsonInput v; error := errorMessage |}
      end
  end.

(** The text area's [onChange] followed by a click on the button. *)
Definition setJsonInput (text : JSString) (v : Viewer) : Viewer :=
  {| sceneRef := sceneRef v; jsonInput := text; error := error v |}.

Definition submit (text : JSString) (v : Viewer) : Viewer :=
  handleJsonSubmit (setJsonInput text v).

(** Whether the submission of [text] over [scene] ends in the [catch]. *)
Definition fails (text : JSString) (scene : Scene) : bool :=
  match snd (tryBlock text scene) with
  | Return _ => false
  | Throw _ => true
  end.

Definition mountedViewer : Viewer :=
  {| sceneRef := Some mountedScene; jsonInput := []; error := [] |}.

(** The viewers a session passes through: the mounted component, then any
    run of edits of the text area and clicks on the button. *)
Inductive reachable : Viewer -> Prop :=
| reach_mount : reachable mountedViewer
| reach_input (text : JSString) (v : Viewer) :
    reachable v -> reachable (setJsonInput text v)
| reach_submit (v : Viewer) :
    reachable v -> reachable (handleJsonSubmit v).

(** The text [{"objects": []}]; 34 is the code unit of the double quote. *)
Definition emptyObjectsText : JSString :=
  js "{" ++ [34%N] ++ js "objects" ++ [34%N] ++ js ": []}".

(** A unit square in the plane [z = 0] as one object of one quad face, and
    the text that describes it:
    [{"objects":[{"faces":[{"vertices":[...four points...],"normal":{...}}]}]}]. *)
Definition squareScene : SceneData :=
  {| objects :=
       [{| faces := [{| vertices := [point 0 0 0; point 1 0 0; point 1 1 0; point 0 1 0];
                        normal := point 0 0 1 |}];
           name := None |}] |}.

Definition quoted (s : string) : JSString := [34%N] ++ js s ++ [34%N].

Definition pointText (a b c : string) : JSString :=
  js "{" ++ quoted "x" ++ js ":" ++ js a ++ js "," ++ quoted "y" ++ js ":" ++ js b
  ++ js "," ++ quoted "z" ++ js ":" ++ js c ++ js "}".

Definition squareSceneText : JSString :=
  js "{" ++ quoted "objects" ++ js ":[{" ++ quoted "faces" ++ js ":[{"
  ++ quoted "vertices" ++ js ":["
  ++ pointText "0" "0" "0" ++ js "," ++ pointText "1" "0" "0" ++ js ","
  ++ pointText "1" "1" "0" ++ js "," ++ pointText "0" "1" "0"
  ++ js "]," ++ quoted "normal" ++ js ":" ++ pointText "0" "0" "1" ++ js "}]}]}".

(** A text whose value is not a [SceneData]: the vertices are numbers and
    the normal is a number,
    [{"objects":[{"faces":[{"vertices":[1,2,3],"normal":5}]}]}]. *)
Definition illShapedText : JSString :=
  js "{" ++ quoted "objects" ++ js ":[{" ++ quoted "faces" ++ js ":[{"
  ++ quoted "vertices" ++ js ":[1,2,3]," ++ quoted "normal" ++ js ":5}]}]}".

(** The lights and the grid every successful parse puts back. *)
Definition fixtures : Scene :=
  [AmbientLight 0x404040;
   DirectionalLight 0xffffff 0.5 (1, 1, 1)%float;
   GridHelper 10 10 0x888888 0x444444].

(** The render groups under a scene, in order. *)
Fixpoint groups (children : Scene) : list Group :=
  match children with
  | [] => []
  | MeshGroup g :: rest => g :: groups rest
  | _ :: rest => groups rest
  end.

End Load.

(** ** Which values the rebuild accepts

    [handleJsonSubmit] checks nothing about the value it parsed: a
    submission fails when [JSON.parse] throws or when the rebuild does.
    [accepted] tells from the structure of a parsed value alone whether the
    rebuild runs to its end. *)

Module Shape.
Import Geometry Load.

(** Values that have properties to read: all but [undefined] and [null]. *)
Definition readable (v : JSValue) : bool :=
  match v with
  | JUndefined | JNull => false
  | _ => true
  end.

(** [v.k] where the read does not throw. *)
Definition prop (v : JSValue) (k : JSString) : JSValue :=
  match v with
  | JObj props => match own k props with Some w => w | None => JUndefined end
  | _ => JUndefined
  end.

(** Whether [v.length === k]. *)
Definition has_length (v : JSValue) (k : nat) : bool :=
  match length_is v k with
  | Return b => b
  | Throw _ => false
  end.

(** The entries of [face.vertices] the vertex loop visits: those of the
    array when its length is four or three, none otherwise. *)
Definition visited (face : JSValue) : list JSValue :=
  let vs := prop face (js "vertices") in
  if has_length vs 4 || has_length vs 3
  then match vs with JArr l => l | _ => [] end
  else [].

(** Whether the face callback runs to its end: [face] and [face.vertices]
    can be read; if the length is four or three, [face.vertices] is an
    array, and if that array is visited, every vertex and the normal can
    be read. *)
Definition face_runs (face : JSValue) : bool :=
  let vs := prop face (js "vertices") in
  readable face && readable vs
  && (if has_length vs 4 || has_length vs 3
      then match vs with JArr _ => true | _ => false end
      else true)
  && forallb (fun vertex => readable vertex && readable (prop face (js "normal")))
             (visited face).

(** What a face that runs pushes onto [vertices] and onto [normals]. *)
Definition face_positions (face : JSValue) : list JSValue :=
  flat_map (fun vertex => [prop vertex (js "x"); prop vertex (js "y"); prop vertex (js "z")])
           (visited face).

Definition face_normals (face : JSValue) : list JSValue :=
  let n := prop face (js "normal") in
  flat_map (fun _ => [prop n (js "x"); prop n (js "y"); prop n (js "z")]) (visited face).

(** Whether [createMeshFromObject] returns on [{...obj, name: ...}]: [faces]
    is an array of faces that run, every number pushed converts for the
    [Float32Array]s, and a truthy name converts to a string. *)
Definition object_accepted (obj : JSValue) : bool :=
  match prop obj (js "faces") with
  | JArr fs =>
      forallb face_runs fs
      && negb (existsb toPrimitive_throws (flat_map face_positions fs))
      && negb (existsb toPrimitive_throws (flat_map face_normals fs))
  | _ => false
  end
  && negb (truthy (prop obj (js "name")) && toPrimitive_throws (prop obj (js "name"))).

Definition accepted (data : JSValue) : bool :=
  match prop data (js "objects") with
  | JArr objs => forallb object_accepted objs
  | _ => false
  end.

End Shape.

(** ** Colour generator: [generateColor]

    Every operation of the generator is an IEEE 754 binary64 operation with
    one correctly rounded result, so it is embedded bit for bit. *)

Module Color.
Local Open Scope float_scope.
Set Warnings "-inexact-float".

(** The binary64 value nearest to an integer. *)
Definition float_of_Z (i : Z) : float :=
  SF2Prim (binary_normalize prec emax i 0%Z false).

(** The remainder operator [a % b]: the exact remainder of the truncating
    division, with the sign of the dividend.  Both operands are brought to
    the smaller of their two exponents. *)
Definition rem (a b : float) : float :=
  match Prim2SF a, Prim2SF b with
  | S754_finite sa ma ea, S754_finite _ mb eb =>
      let e := Z.min ea eb in
      let na := Z.shiftl (Zpos ma) (ea - e) in
      let nb := Z.shiftl (Zpos mb) (eb - e) in
      let r := (na mod nb)%Z in
      SF2Prim (binary_normalize prec emax (if sa then - r else r)%Z e sa)
  | S754_finite _ _ _, S754_infinity _ => a
  | S754_zero _, S754_finite _ _ _ => a
  | S754_zero _, S754_infinity _ => a
  | _, _ => nan
  end.

(** [Math.round]: the nearest integer, a tie going up.  For [a] equal to
    [n * 2^e] with [e] negative that is the floor of [a + 1/2], the integer
    [2 * n + 2^(-e)] shifted right by [1 - e] bits. *)
Definition Math_round (a : float) : float :=
  match Prim2SF a with
  | S754_finite s m e =>
      if (0 <=? e)%Z then a
      else
        let n := if s then Zneg m else Zpos m in
        let r := Z.shiftr (2 * n + Z.shiftl 1 (- e)) (- e + 1) in
        SF2Prim (binary_normalize prec emax r 0%Z s)
  | _ => a
  end.

(** [THREE.Color] with its three channels. *)
Record Color : Type := { r : float; g : float; b : float }.

Definition hue2rgb (p q t : float) : float :=
  let t := if t <? 0 then t + 1 else t in
  let t := if 1 <? t then t - 1 else t in
  if t <? 1 / 6 then p + (q - p) * 6 * t
  else if t <? 1 / 2 then q
  else if t <? 2 / 3 then p + (q - p) * (2 / 3 - t) * 6
  else p.

Definition generateColor (index : float) : Color :=
  let hue := rem (index * 137.508) 360 in
  let saturation := 70 in
  let lightness := 60 in
  let h := hue / 360 in
  let s := saturation / 100 in
  let l := lightness / 100 in
  let q := if l <? 0.5 then l * (1 + s) else l + s - l * s in
  let p := 2 * l - q in
  let r := Math_round (hue2rgb p q (h + 1 / 3) * 255) in
  let g := Math_round (hue2rgb p q h * 255) in
  let b := Math_round (hue2rgb p q (h - 1 / 3) * 255) in
  {| r := r / 255; g := g / 255; b := b / 255 |}.

(** Two colours that differ: on some channel one is below the other. *)
Definition apart (u v : float) : bool := (u <? v) || (v <? u).

Definition channels_differ (c1 c2 : Color) : bool :=
  apart (r c1) (r c2) || apart (g c1) (g c2) || apart (b c1) (b c2).

(** Whether each of the [n] indices from [i] on gets a colour other than its
    successor's; [c] is the colour of [i]. *)
Fixpoint consecutive_differ (n : nat) (i : Z) (c : Color) : bool :=
  match n with
  | O => true
  | S n' =>
      let c' := generateColor (float_of_Z (i + 1)) in
      channels_differ c c' && consecutive_differ n' (i + 1)%Z c'
  end.

End Color.

(** The generator once more, over the rational numbers: the same text with
    every operation exact.  Set against [Color.generateColor], it tells what
    in the colours is the algorithm and what is binary64 rounding. *)

Module ColorExact.
Local Open Scope Q_scope.
Set Warnings "-notation-overridden".

(** The four operations, each result in lowest terms. *)
Definition add (a b : Q) : Q := Qred (Qplus a b).
Definition sub (a b : Q) : Q := Qred (Qminus a b).
Definition mul (a b : Q) : Q := Qred (Qmult a b).
Definition div (a b : Q) : Q := Qred (Qdiv a b).
Local Notation "a + b" := (add a b) : Q_scope.
Local Notation "a - b" := (sub a b) : Q_scope.
Local Notation "a * b" := (mul a b) : Q_scope.
Local Notation "a / b" := (div a b) : Q_scope.

Definition ltb (a b : Q) : bool := negb (Qle_bool b a).

(** The integer part, rounded toward zero. *)
Definition trunc (a : Q) : Z := if Qle_bool 0 a then Qfloor a else Qceiling a.

(** [a % b]. *)
Definition rem (a b : Q) : Q := a - b * inject_Z (trunc (a / b)).

Definition Math_round (a : Q) : Q := inject_Z (Qfloor (a + 0.5)).

Record Color : Type := { r : Q; g : Q; b : Q }.

Definition hue2rgb (p q t : Q) : Q :=
  let t := if ltb t 0 then t + 1 else t in
  let t := if ltb 1 t then t - 1 else t in
  if ltb t (1 / 6) then p + (q - p) * 6 * t
  else if ltb t (1 / 2) then q
  else if ltb t (2 / 3) then p + (q - p) * (2 / 3 - t) * 6
  else p.

Definition generateColor (index : Z) : Color :=
  let hue := rem (inject_Z index * 137.508) 360 in
  let saturation := 70 in
  let lightness := 60 in
  let h := hue / 360 in
  let s := saturation / 100 in
  let l := lightness / 100 in
  let q := if ltb l 0.5 then l * (1 + s) else l + s - l * s in
  let p := 2 * l - q in
  let r := Math_round (hue2rgb p q (h + 1 / 3) * 255) in
  let g := Math_round (hue2rgb p q h * 255) in
  let b := Math_round (hue2rgb p q (h - 1 / 3) * 255) in
  {| r := r / 255; g := g / 255; b := b / 255 |}.

(** Two colours that differ: on some channel they are unequal. *)
Definition channels_differ (c1 c2 : Color) : bool :=
  negb (Qeq_bool (r c1) (r c2)) || negb (Qeq_bool (g c1) (g c2))
  || negb (Qeq_bool (b c1) (b c2)).

Fixpoint consecutive_differ (n : nat) (i : Z) (c : Color) : bool :=
  match n with
  | O => true
  | S n' =>
      let c' := generateColor (i + 1) in
      channels_differ c c' && consecutive_differ n' (i + 1)%Z c'
  end.
End ColorExact.

(** ** Orbit camera: [handleMouseDown], [handleMouseMove], [handleMouseUp]

    [Math.sin], [Math.cos] and [Math.atan2] have no fixed binary64 result, so
    the mouse handlers are embedded over the real numbers: every number is
    the real it denotes and every operation is exact. *)

Module Camera.
Local Open Scope R_scope.

(** [THREE.Vector3], the camera's [position]. *)
Record Vector3 : Type := { x : R; y : R; z : R }.

Record MouseControls : Type := {
  isMouseDown : bool;
  startX : R;
  startY : R;
  lastX : R;
  lastY : R
}.

(** [cameraRef.current] (its position) and [mouseControlsRef.current]. *)
Record Controls : Type := {
  cameraRef : option Vector3;
  mouseControlsRef : MouseControls
}.

Record MouseEvent : Type := { clientX : R; clientY : R }.

(** The camera the mount effect creates, [position.z = 5], with the initial
    [mouseControlsRef]. *)
Definition initialControls : Controls :=
  {| cameraRef := Some {| x := 0; y := 0; z := 5 |};
     mouseControlsRef := {| isMouseDown := false; startX := 0; startY := 0;
                            lastX := 0; lastY := 0 |} |}.

(** [Math.atan2(b, a)], the angle of the point [(a, b)]. *)
Definition atan2 (b a : R) : R :=
  if Rlt_dec 0 a then atan (b / a)
  else if Rlt_dec a 0 then
    if Rle_dec 0 b then atan (b / a) + PI else atan (b / a) - PI
  else if Rlt_dec 0 b then PI / 2
  else if Rlt_dec b 0 then - (PI / 2)
  else 0.

(** [Vector3.length], as three.js defines it. *)
Definition length (v : Vector3) : R :=
  sqrt (x v * x v + y v * y v + z v * z v).

Definition handleMouseDown (e : MouseEvent) (c : Controls) : Controls :=
  {| cameraRef := cameraRef c;
     mouseControlsRef := {| isMouseDown := true;
                            startX := clientX e; startY := clientY e;
                            lastX := clientX e; lastY := clientY e |} |}.

Definition rotationSpeed : R := 1 / 100.

(** The camera position after one mouse move of [(deltaX, deltaY)].  The
    assignments run in source order: [position.z] is computed from the
    [position.x] assigned on the line before it. *)
Definition orbit (deltaX deltaY : R) (p : Vector3) : Vector3 :=
  let x1 := x p * cos (deltaX * rotationSpeed) - z p * sin (deltaX * rotationSpeed) in
  let z1 := x1 * sin (deltaX * rotationSpeed) + z p * cos (deltaX * rotationSpeed) in
  let currentRadius := sqrt (z1 * z1 + y p * y p) in
  let currentAngle := atan2 (y p) z1 in
  let newAngle := currentAngle + deltaY * rotationSpeed in
  let y2 := currentRadius * sin newAngle in
  let z2 := currentRadius * cos newAngle in
  {| x := x1; y := y2; z := z2 |}.

Definition handleMouseMove (e : MouseEvent) (c : Controls) : Controls :=
  match isMouseDown (mouseControlsRef c), cameraRef c with
  | true, Some p =>
      let deltaX := clientX e - lastX (mouseControlsRef c) in
      let deltaY := clientY e - lastY (mouseControlsRef c) in
      {| cameraRef := Some (orbit deltaX deltaY p);
         mouseControlsRef := {| isMouseDown := true;
                                startX := startX (mouseControlsRef c);
                                startY := startY (mouseControlsRef c);
                                lastX := clientX e; lastY := clientY e |} |}
  | _, _ => c
  end.

Definition handleMouseUp (c : Controls) : Controls :=
  {| cameraRef := cameraRef c;
     mouseControlsRef := {| isMouseDown := false;
                            startX := startX (mouseControlsRef c);
                            startY := startY (mouseControlsRef c);
                            lastX := lastX (mouseControlsRef c);
                            lastY := lastY (mouseControlsRef c) |} |}.

(** The rotation of the [(z, y)] plane by [angle], about the x axis. *)
Definition tilt (angle : R) (p : Vector3) : Vector3 :=
  {| x := x p;
     y := y p * cos angle + z p * sin angle;
     z := z p * cos angle - y p * sin angle |}.

(** A drag gesture: mouse down at [start], then the moves in order. *)
Definition drag (start : MouseEvent) (moves : list MouseEvent) (c : Controls) : Controls :=
  fold_left (fun c e => handleMouseMove e c) moves (handleMouseDown start c).

End Camera.

(** ** Orbit camera: [handleWheel]

    The wheel handler uses no trigonometry: multiplication, addition,
    division, [Math.sqrt], [Math.max] and [Math.min] are correctly rounded
    binary64 operations, so the handler is embedded bit for bit. *)

Module Camera64.
Local Open Scope float_scope.
Set Warnings "-inexact-float".

Record Vector3 : Type := { x : float; y : float; z : float }.

Definition length (v : Vector3) : float :=
  PrimFloat.sqrt (x v * x v + y v * y v + z v * z v).

Definition multiplyScalar (s : float) (v : Vector3) : Vector3 :=
  {| x := x v * s; y := y v * s; z := z v * s |}.

Definition divideScalar (s : float) (v : Vector3) : Vector3 :=
  multiplyScalar (1 / s) v.

(** [len || 1]: zero and [NaN] are falsy. *)
Definition normalize (v : Vector3) : Vector3 :=
  let len := length v in
  divideScalar (if (len =? 0) || PrimFloat.is_nan len then 1 else len) v.

(** [Math.max] and [Math.min]: [NaN] if an argument is [NaN]; [-0] counts as
    smaller than [+0]. *)
Definition Math_max (a b : float) : float :=
  if PrimFloat.is_nan a || PrimFloat.is_nan b then nan
  else if a <? b then b
  else if b <? a then a
  else if PrimFloat.get_sign a then b else a.

Definition Math_min (a b : float) : float :=
  if PrimFloat.is_nan a || PrimFloat.is_nan b then nan
  else if a <? b then a
  else if b <? a then b
  else if PrimFloat.get_sign a then a else b.

Definition zoom (deltaY : float) (p : Vector3) : Vector3 :=
  let zoomSpeed := 0.1 in
  let minDistance := 0.1 in
  let maxDistance := 100 in
  let delta := if 0 <? deltaY then 1 + zoomSpeed else 1 / (1 + zoomSpeed) in
  let currentDistance := length p in
  let newDistance := Math_max minDistance (Math_min maxDistance (currentDistance * delta)) in
  multiplyScalar newDistance (normalize p).

Record WheelEvent : Type := { deltaY : float }.

(** [if (!cameraRef.current) return]; otherwise the camera moves to the
    zoomed position ([lookAt] turns the camera and leaves its position). *)
Definition handleWheel (e : WheelEvent) (cameraRef : option Vector3) : option Vector3 :=
  match cameraRef with
  | Some p => Some (zoom (deltaY e) p)
  | None => None
  end.

(** A run of wheel events, first to last. *)
Definition wheelRun (events : list WheelEvent) (cameraRef : option Vector3) : option Vector3 :=
  fold_left (fun c e => handleWheel e c) events cameraRef.

End Camera64.

(** ** The builder as a function of the face list

    What the face loop of [createMeshFromObject] comes to on well-typed
    faces, written with plain list functions.  The properties part proves
    the loop equal to them. *)

Module Mesh.
Import Geometry.

(** Number of vertices the loop emits for a face: four for a quad, three
    for a triangle, none for anything else. *)
Definition arity (f : Face) : nat :=
  if Nat.eqb (List.length (vertices f)) 4 then 4
  else if Nat.eqb (List.length (vertices f)) 3 then 3
  else 0.

Definition emits (f : Face) : bool :=
  Nat.eqb (List.length (vertices f)) 4 || Nat.eqb (List.length (vertices f)) 3.

(** The index entries of a face whose first vertex has index [i]. *)
Definition fan (i : nat) (f : Face) : list nat :=
  if Nat.eqb (List.length (vertices f)) 4 then [i; i + 1; i + 2; i; i + 2; i + 3]
  else if Nat.eqb (List.length (vertices f)) 3 then [i; i + 1; i + 2]
  else [].

Definition positionsOf (fs : list Face) : list JSValue :=
  flat_map (fun f => flat_map coords (vertices f)) (filter emits fs).

Definition normalsOf (fs : list Face) : list JSValue :=
  flat_map (fun f => flat_map (fun _ => coords (normal f)) (vertices f)) (filter emits fs).

Fixpoint indicesFrom (i : nat) (fs : list Face) : list nat :=
  match fs with
  | [] => []
  | f :: rest => fan i f ++ indicesFrom (i + arity f) rest
  end.

Definition emitted (fs : list Face) : nat := list_sum (map arity fs).

Definition quads (fs : list Face) : nat :=
  List.length (filter (fun f => Nat.eqb (List.length (vertices f)) 4) fs).

Definition triangles (fs : list Face) : nat :=
  List.length (filter (fun f => Nat.eqb (List.length (vertices f)) 3) fs).

(** The group of a well-typed object. *)
Definition groupOf (o : Object3D) : Group :=
  {| geometry := {| position := positionsOf (faces o);
                    g_normal := normalsOf (faces o);
                    index := indicesFrom 0 (faces o) |} |}.

(** An object whose face holds numbers where vertices are expected and a
    number for a normal. *)
Definition looseObject : JSValue :=
  JObj [(js "faces",
         JArr [JObj [(js "vertices", JArr [JNum 1; JNum 2; JNum 3]);
                     (js "normal", JNum 5)]])].

(** Faces of two and of three entries, without a normal. *)
Definition bareFace (entries : list JSValue) : JSValue :=
  JObj [(js "vertices", JArr entries)].

End Mesh.

(** Texts for the load operation: the unit square followed by [null] in
    the [objects] array, and an array where the scene object is expected. *)
Module Texts.
Import Load.

Definition squareThenNullText : JSString :=
  js "{" ++ quoted "objects" ++ js ":[{" ++ quoted "faces" ++ js ":[{"
  ++ quoted "vertices" ++ js ":["
  ++ pointText "0" "0" "0" ++ js "," ++ pointText "1" "0" "0" ++ js ","
  ++ pointText "1" "1" "0" ++ js "," ++ pointText "0" "1" "0"
  ++ js "]," ++ quoted "normal" ++ js ":" ++ pointText "0" "0" "1" ++ js "}]},null,{}]}".

Definition arrayText : JSString := js "[1, 2]".

(** A space, a line feed and a tab. *)
Definition blankText : JSString := [32%N; 10%N; 9%N].

End Texts.

(** ** The wheel handler in binary64, run from the mounted camera *)

Module Wheel64.
Import Camera64.
Local Open Scope float_scope.
Set Warnings "-inexact-float".

(** The camera position the mount effect sets. *)
Definition mounted : Vector3 := {| x := 0; y := 0; z := 5 |}.

(** [n] wheel events, each with the same [deltaY]. *)
Fixpoint wheels (n : nat) (deltaY : float) (p : Vector3) : Vector3 :=
  match n with
  | O => p
  | S n' => wheels n' deltaY (zoom deltaY p)
  end.

(** Whether the distance of [p] from the origin is between the minimum and
    the maximum distance of the wheel handler. *)
Definition within_bounds (p : Vector3) : bool :=
  (0.1 <=? length p) && (length p <=? 100).

(** Whether [p] and the next [n] positions of the run are within bounds. *)
Fixpoint run_within (n : nat) (deltaY : float) (p : Vector3) : bool :=
  within_bounds p &&
  match n with
  | O => true
  | S n' => run_within n' deltaY (zoom deltaY p)
  end.

End Wheel64.

(** ** The range of the colours *)

Module Palette.

(** With saturation 0.7 and lightness 0.6 the two bounds of [hue2rgb] are
    0.32 and 0.88, which [Math.round] takes to 82 and 224 out of 255.  A
    colour is in range when each channel is between the two and some
    channel sits on each. *)
Definition in_range (c : Color.Color) : bool :=
  let lo := (82 / 255)%float in
  let hi := (224 / 255)%float in
  let ok u := PrimFloat.leb lo u && PrimFloat.leb u hi in
  ok (Color.r c) && ok (Color.g c) && ok (Color.b c)
  && (PrimFloat.eqb (Color.r c) hi || PrimFloat.eqb (Color.g c) hi
      || PrimFloat.eqb (Color.b c) hi)
  && (PrimFloat.eqb (Color.r c) lo || PrimFloat.eqb (Color.g c) lo
      || PrimFloat.eqb (Color.b c) lo).

Definition exact_in_range (c : ColorExact.Color) : bool :=
  let lo := (82 # 255)%Q in
  let hi := (224 # 255)%Q in
  let ok u := Qle_bool lo u && Qle_bool u hi in
  ok (ColorExact.r c) && ok (ColorExact.g c) && ok (ColorExact.b c)
  && (Qeq_bool (ColorExact.r c) hi || Qeq_bool (ColorExact.g c) hi
      || Qeq_bool (ColorExact.b c) hi)
  && (Qeq_bool (ColorExact.r c) lo || Qeq_bool (ColorExact.g c) lo
      || Qeq_bool (ColorExact.b c) lo).

(** Whether the colours of the [n] indices from [i] on are in range and
    come back 30000 indices later. *)
Fixpoint table (n : nat) (i : Z) : bool :=
  match n with
  | O => true
  | S n' =>
      let c := Color.generateColor (Color.float_of_Z i) in
      in_range c
      && negb (Color.channels_differ c (Color.generateColor (Color.float_of_Z (i + 30000))))
      && table n' (i + 1)
  end.

Fixpoint exact_table (n : nat) (i : Z) : bool :=
  match n with
  | O => true
  | S n' => exact_in_range (ColorExact.generateColor i) && exact_table n' (i + 1)
  end.

End Palette.

(** ** The face colour of an object

    [createMeshFromObject] colours an object with
    [generateColor(object.name ? parseInt(object.name, 36) : Math.random() * 1000)]. *)

Module Tint.
Import Load.
Local Open Scope N_scope.

(** The code units [parseInt] skips at the start of its argument: white
    space (tab, vertical tab, form feed, space, no-break space, the
    byte-order mark and the other space separators) and line terminators. *)
Definition is_space (c : N) : bool :=
  (c =? 9) || (c =? 10) || (c =? 11) || (c =? 12) || (c =? 13) || (c =? 32)
  || (c =? 160) || (c =? 5760) || ((8192 <=? c) && (c <=? 8202))
  || (c =? 8232) || (c =? 8233) || (c =? 8239) || (c =? 8287) || (c =? 12288)
  || (c =? 65279).

Fixpoint trimStart (s : JSString) : JSString :=
  match s with
  | c :: r => if is_space c then trimStart r else s
  | [] => []
  end.

(** The value of a digit in radix [radix]: [0] to [9], then the letters in
    either case for ten to thirty-five. *)
Definition digitValue (radix : Z) (c : N) : option Z :=
  let v :=
    if (48 <=? c) && (c <=? 57) then Some (Z.of_N (c - 48))
    else if (97 <=? c) && (c <=? 122) then Some (Z.of_N (c - 87))
    else if (65 <=? c) && (c <=? 90) then Some (Z.of_N (c - 55))
    else None in
  match v with
  | Some d => if (d <? radix)%Z then Some d else None
  | None => None
  end.

(** The longest run of digits at the start of [s], read in radix [radix]
    onto [acc], with the number of digits read. *)
Fixpoint radixDigits (radix : Z) (s : JSString) (acc : Z) (count : nat) : Z * nat :=
  match s with
  | c :: r =>
      match digitValue radix c with
      | Some d => radixDigits radix r (acc * radix + d)%Z (S count)
      | None => (acc, count)
      end
  | [] => (acc, count)
  end.

(** [parseInt(string, radix)] on a string and an integer radix.  The
    result is the binary64 value nearest to the integer read; the language
    lets an implementation approximate that integer in radix 36, and
    implementations agree where it is below [2^53]. *)
Definition parseInt (string : JSString) (radix : Z) : float :=
  let s := trimStart string in
  let '(negative, s) :=
    match s with
    | c :: r => if c =? 45 then (true, r) else if c =? 43 then (false, r) else (false, s)
    | [] => (false, s)
    end in
  if (negb (radix =? 0)%Z) && ((radix <? 2)%Z || (36 <? radix)%Z) then nan
  else
    let '(R, s) :=
      if (radix =? 0)%Z || (radix =? 16)%Z then
        match s with
        | z :: x :: r =>
            if (z =? 48) && ((x =? 120) || (x =? 88)) then (16%Z, r)
            else (if (radix =? 0)%Z then 10%Z else radix, s)
        | _ => (if (radix =? 0)%Z then 10%Z else radix, s)
        end
      else (radix, s) in
    match radixDigits R s 0%Z 0%nat with
    | (_, O) => nan
    | (0%Z, _) => if negative then neg_zero else zero
    | (mathInt, _) => Color.float_of_Z (if negative then - mathInt else mathInt)
    end.

(** A lower-case ASCII letter turned into its capital; any other code unit
    as it is. *)
Definition capital (c : N) : N :=
  if (97 <=? c) && (c <=? 122) then c - 32 else c.

(** The argument of [generateColor] for an object whose [name], when it is
    there, is a string; [random] is what [Math.random()] returns. *)
Definition colorIndex (random : float) (name : option JSString) : float :=
  match name with
  | Some s => if truthy (JStr s) then parseInt s 36 else (random * 1000)%float
  | None => (random * 1000)%float
  end.

(** The name under which [handleJsonSubmit] hands the object at [index]
    to the builder: [obj.name || `object${index}`]. *)
Definition loadedName (name : option JSString) (index : nat) : JSString :=
  match name with
  | Some s => if truthy (JStr s) then s else objectName index
  | None => objectName index
  end.

(** The colour of the object at [index] of a load that gives it no name. *)
Definition defaultColor (index : nat) : Color.Color :=
  Color.generateColor (parseInt (objectName index) 36).

(** Whether [c] differs from every colour of [l], and whether the colours
    of [l] differ pairwise. *)
Definition differs_from_all (c : Color.Color) (l : list Color.Color) : bool :=
  forallb (Color.channels_differ c) l.

Fixpoint pairwise_differ (l : list Color.Color) : bool :=
  match l with
  | [] => true
  | c :: rest => differs_from_all c rest && pairwise_differ rest
  end.

(** The grey of an index that is not a number. *)
Definition grey : Color.Color :=
  {| Color.r := 82 / 255; Color.g := 82 / 255; Color.b := 82 / 255 |}%float.

End Tint.

(** * Properties *)

Unset Implicit Arguments.

(** ** Geometry builder *)

(** Unfolds the monad of a handler down to matches on completions. *)
Ltac run := unfold bind, lift, modify, ret, get_store in *.

Section GeometryFacts.
Import Geometry.

Lemma Get_vertices (f : Face) :
  Get (js_of_Face f) (js "vertices") = Return (JArr (map js_of_Vertex (vertices f))).
Proof. reflexivity. Qed.

Lemma vertexCallback_typed (f : Face) (v : Vertex) (b : Buffers) :
  vertexCallback (js_of_Face f) (js_of_Vertex v) b =
  (push_normals (coords (normal f)) (push_vertices (coords v) b), Return tt).
Proof. reflexivity. Qed.

(** What the vertex loop of one face appends. *)
Lemma forEach_vertices (f : Face) (vs : list Vertex) (i : nat) (b : Buffers) :
  forEach_from (fun vertex _ => vertexCallback (js_of_Face f) vertex) i
               (map js_of_Vertex vs) b =
  ({| b_vertices := b_vertices b ++ flat_map coords vs;
      b_normals := b_normals b ++ flat_map (fun _ => coords (normal f)) vs;
      b_indices := b_indices b;
      vertexIndex := vertexIndex b |}, Return tt).
Proof.
  revert i b. induction vs as [|v vs IH]; intros i b.
  - simpl. rewrite !app_nil_r. destruct b; reflexivity.
  - cbn [map forEach_from]. unfold bind at 1.
    rewrite vertexCallback_typed, IH.
    unfold push_normals, push_vertices; cbn [b_vertices b_normals b_indices vertexIndex].
    cbn [flat_map]. rewrite <- !app_assoc. reflexivity.
Qed.

Lemma faceCallback_unfold (f : Face) (b : Buffers) :
  faceCallback (js_of_Face f) b =
  let vs := vertices f in
  let emitted :=
    {| b_vertices := b_vertices b ++ flat_map coords vs;
       b_normals := b_normals b ++ flat_map (fun _ => coords (normal f)) vs;
       b_indices := b_indices b;
       vertexIndex := vertexIndex b |} in
  let i := vertexIndex b in
  if Nat.eqb (List.length vs) 4
  then (advance 4 (push_indices [i; i + 1; i + 2; i; i + 2; i + 3] emitted), Return tt)
  else if Nat.eqb (List.length vs) 3
  then (advance 3 (push_indices [i; i + 1; i + 2] emitted), Return tt)
  else (b, Return tt).
Proof.
  unfold faceCallback, bind, lift. rewrite Get_vertices.
  cbn [length_is forEach]. rewrite length_map.
  destruct (Nat.eqb (List.length (vertices f)) 4).
  - rewrite forEach_vertices. reflexivity.
  - destruct (Nat.eqb (List.length (vertices f)) 3).
    + rewrite forEach_vertices. reflexivity.
    + reflexivity.
Qed.

(** C2. A face with exactly four vertices appends its four vertices, four
    copies of its normal and the two triangles [(i, i+1, i+2)] and
    [(i, i+2, i+3)], where [i] is the running vertex index, and advances the
    index by four; a face with exactly three vertices appends its three
    vertices, three copies of its normal and the triangle [(i, i+1, i+2)],
    and advances the index by three; a face with any other number of
    vertices leaves the buffers as they are.  In each case the callback
    completes without throwing. *)
Theorem faceCallback_contribution (f : Face) (b : Buffers) :
  let i := vertexIndex b in
  (List.length (vertices f) = 4 ->
   faceCallback (js_of_Face f) b =
   ({| b_vertices := b_vertices b ++ flat_map coords (vertices f);
       b_normals := b_normals b ++ List.concat (repeat (coords (normal f)) 4);
       b_indices := b_indices b ++ [i; i + 1; i + 2; i; i + 2; i + 3];
       vertexIndex := i + 4 |}, Return tt)) /\
  (List.length (vertices f) = 3 ->
   faceCallback (js_of_Face f) b =
   ({| b_vertices := b_vertices b ++ flat_map coords (vertices f);
       b_normals := b_normals b ++ List.concat (repeat (coords (normal f)) 3);
       b_indices := b_indices b ++ [i; i + 1; i + 2];
       vertexIndex := i + 3 |}, Return tt)) /\
  (List.length (vertices f) <> 4 -> List.length (vertices f) <> 3 ->
   faceCallback (js_of_Face f) b = (b, Return tt)).
Proof.
  intro i. rewrite faceCallback_unfold. cbv zeta. repeat split.
  - intro H. rewrite H. cbn [Nat.eqb].
    destruct (vertices f) as [|v1 [|v2 [|v3 [|v4 [|v5 vs]]]]]; try discriminate H.
    reflexivity.
  - intro H. rewrite H. cbn [Nat.eqb].
    destruct (vertices f) as [|v1 [|v2 [|v3 [|v4 vs]]]]; try discriminate H.
    reflexivity.
  - intros H4 H3.
    apply Nat.eqb_neq in H4. apply Nat.eqb_neq in H3. rewrite H4, H3. reflexivity.
Qed.

(** A quad, a triangle and a pentagon, each with the running vertex index
    at seven. *)
Lemma faceCallback_contribution_witness :
  faceCallback
    (js_of_Face {| vertices := [point 0 0 0; point 1 0 0; point 1 1 0; point 0 1 0];
                   normal := point 0 0 1 |}) sevenVertices
  = ({| b_vertices := flat_map coords [point 0 0 0; point 1 0 0; point 1 1 0; point 0 1 0];
        b_normals := List.concat (repeat (coords (point 0 0 1)) 4);
        b_indices := [7; 8; 9; 7; 9; 10];
        vertexIndex := 11 |}, Return tt)
  /\ faceCallback
       (js_of_Face {| vertices := [point 0 0 0; point 1 0 0; point 1 1 0];
                      normal := point 0 0 1 |}) sevenVertices
     = ({| b_vertices := flat_map coords [point 0 0 0; point 1 0 0; point 1 1 0];
           b_normals := List.concat (repeat (coords (point 0 0 1)) 3);
           b_indices := [7; 8; 9];
           vertexIndex := 10 |}, Return tt)
  /\ faceCallback
       (js_of_Face {| vertices := [point 0 0 0; point 1 0 0; point 1 1 0;
                                   point 0 1 0; point 0 0 0];
                      normal := point 0 0 1 |}) sevenVertices
     = (sevenVertices, Return tt).
Proof.
  split; [|split].
  - apply (faceCallback_contribution
             {| vertices := [point 0 0 0; point 1 0 0; point 1 1 0; point 0 1 0];
                normal := point 0 0 1 |} sevenVertices).
    reflexivity.
  - apply (faceCallback_contribution
             {| vertices := [point 0 0 0; point 1 0 0; point 1 1 0];
                normal := point 0 0 1 |} sevenVertices).
    reflexivity.
  - apply (faceCallback_contribution
             {| vertices := [point 0 0 0; point 1 0 0; point 1 1 0;
                             point 0 1 0; point 0 0 0];
                normal := point 0 0 1 |} sevenVertices); simpl; lia.
Defined.

Lemma numbers_convert (l : list JSValue) :
  forallb is_number l = true -> existsb toPrimitive_throws l = false.
Proof.
  induction l as [|v l IH]; simpl; [reflexivity|].
  intro H. apply andb_prop in H. destruct H as [Hv Hl].
  rewrite (IH Hl). destruct v; try discriminate Hv. reflexivity.
Qed.

Lemma coords_numbers (vs : list Vertex) (n : Vertex) :
  forallb is_number (flat_map coords vs) = true
  /\ forallb is_number (flat_map (fun _ => coords n) vs) = true.
Proof. induction vs as [|v vs [IH1 IH2]]; simpl; auto. Qed.

(** *** The builder on arbitrary values *)

Lemma vertexCallback_grows (face vertex : JSValue) (b b' : Buffers) :
  vertexCallback face vertex b = (b', Return tt) -> grown 1 b b'.
Proof.
  unfold vertexCallback. run.
  destruct (Get vertex (js "x")); [|discriminate].
  destruct (Get vertex (js "y")); [|discriminate].
  destruct (Get vertex (js "z")); [|discriminate].
  destruct (Get face (js "normal")) as [n|]; [|discriminate].
  destruct (Get n (js "x")); [|discriminate].
  destruct (Get n (js "y")); [|discriminate].
  destruct (Get n (js "z")); [|discriminate].
  intro H. inversion H; subst b'. unfold grown; cbn. rewrite !length_app. cbn.
  repeat split; lia.
Qed.

Lemma vertices_loop_grows (face : JSValue) (l : list JSValue) (i : nat) (b b' : Buffers) :
  forEach_from (fun vertex _ => vertexCallback face vertex) i l b = (b', Return tt) ->
  grown (List.length l) b b'.
Proof.
  revert i b. induction l as [|v l IH]; intros i b.
  - cbn. intro H. inversion H; subst. unfold grown. repeat split; lia.
  - cbn [forEach_from]. unfold bind at 1.
    destruct (vertexCallback face v b) as [b1 [[]|e]] eqn:E1; [|discriminate].
    intro H. apply vertexCallback_grows in E1. apply IH in H.
    destruct E1 as (A1 & A2 & A3 & A4), H as (B1 & B2 & B3 & B4).
    unfold grown. cbn [List.length]. repeat split; try lia; congruence.
Qed.

Lemma consistent_after_face (k : nat) (ix : list nat) (b b1 : Buffers) :
  consistent b -> grown k b b1 ->
  Forall (fun j => j < vertexIndex b + k) ix ->
  consistent (advance k (push_indices ix b1)).
Proof.
  intros (Hv & Hn & Hi) (G1 & G2 & G3 & G4) Hx.
  unfold consistent, advance, push_indices; cbn. rewrite G1, G2, G3, G4, Hv, Hn.
  repeat split; try lia.
  apply Forall_app. split; [|exact Hx].
  eapply Forall_impl; [|exact Hi]. cbn; intros; lia.
Qed.

(** Whatever the face is, if its callback completes it leaves consistent
    buffers consistent: a vertex loop that throws half way takes the whole
    build with it. *)
Lemma faceCallback_keeps_consistent (face : JSValue) (b b' : Buffers) :
  faceCallback face b = (b', Return tt) -> consistent b -> consistent b'.
Proof.
  unfold faceCallback. run.
  destruct (Get face (js "vertices")) as [vs|]; [|discriminate].
  destruct (length_is vs 4) as [[|]|] eqn:L4; [| |discriminate].
  - destruct vs; cbn [forEach] in *; try discriminate.
    cbn in L4. injection L4 as L4. apply Nat.eqb_eq in L4.
    destruct (forEach_from _ 0 elems b) as [b1 [[]|e]] eqn:E; [|discriminate].
    apply vertices_loop_grows in E. rewrite L4 in E.
    intros H Hb. inversion H; subst b'.
    destruct E as (G1 & G2 & G3 & G4).
    apply (consistent_after_face 4 _ b b1 Hb); [repeat split; assumption|].
    rewrite G4. repeat constructor; lia.
  - destruct (length_is vs 3) as [[|]|] eqn:L3; [| |discriminate].
    + destruct vs; cbn [forEach] in *; try discriminate.
      cbn in L3. injection L3 as L3. apply Nat.eqb_eq in L3.
      destruct (forEach_from _ 0 elems b) as [b1 [[]|e]] eqn:E; [|discriminate].
      apply vertices_loop_grows in E. rewrite L3 in E.
      intros H Hb. inversion H; subst b'.
      destruct E as (G1 & G2 & G3 & G4).
      apply (consistent_after_face 3 _ b b1 Hb); [repeat split; assumption|].
      rewrite G4. repeat constructor; lia.
    + intros H Hb. inversion H; subst b'. exact Hb.
Qed.

Lemma faces_loop_keeps_consistent (l : list JSValue) (i : nat) (b b' : Buffers) :
  forEach_from (fun face _ => faceCallback face) i l b = (b', Return tt) ->
  consistent b -> consistent b'.
Proof.
  revert i b. induction l as [|face l IH]; intros i b.
  - cbn. intros H Hb. inversion H; subst. exact Hb.
  - cbn [forEach_from]. unfold bind at 1.
    destruct (faceCallback face b) as [b1 [[]|e]] eqn:E1; [|discriminate].
    intros H Hb. apply (IH _ _ H). apply (faceCallback_keeps_consistent face b b1 E1 Hb).
Qed.

(** On any value at all, the buffers of a completed build are consistent. *)
Lemma buildBuffers_consistent (object : JSValue) (b : Buffers) :
  buildBuffers object = Return b -> consistent b.
Proof.
  unfold buildBuffers.
  destruct (Get object (js "faces")) as [fs|]; [|discriminate].
  destruct fs; cbn [forEach]; unfold lift; try discriminate.
  destruct (forEach_from _ 0 elems emptyBuffers) as [b1 [[]|e]] eqn:E; [|discriminate].
  intro H. inversion H; subst b1.
  apply (faces_loop_keeps_consistent elems 0 emptyBuffers b E).
  unfold consistent; cbn. repeat split; auto.
Qed.

(** *** The builder on well-typed objects *)

(** What one well-typed face does to the buffers. *)
Lemma faceCallback_step (f : Face) (b : Buffers) :
  exists b',
    faceCallback (js_of_Face f) b = (b', Return tt)
    /\ (forallb is_number (b_vertices b) = true ->
        forallb is_number (b_normals b) = true ->
        forallb is_number (b_vertices b') = true /\ forallb is_number (b_normals b') = true)
    /\ (List.length (vertices f) = 4 ->
        vertexIndex b' = vertexIndex b + 4
        /\ List.length (b_indices b') = List.length (b_indices b) + 6).
Proof.
  rewrite faceCallback_unfold. cbv zeta.
  destruct (coords_numbers (vertices f) (normal f)) as [Nv Nn].
  destruct (Nat.eqb (List.length (vertices f)) 4) eqn:E4;
    [|destruct (Nat.eqb (List.length (vertices f)) 3) eqn:E3];
    eexists; (split; [reflexivity|]); (split; cbn).
  - intros Hv Hn. rewrite !forallb_app, Hv, Hn, Nv, Nn. auto.
  - intros _. rewrite length_app. cbn. lia.
  - intros Hv Hn. rewrite !forallb_app, Hv, Hn, Nv, Nn. auto.
  - intros H. rewrite H in E4. discriminate E4.
  - auto.
  - intros H. rewrite H in E4. discriminate E4.
Qed.

(** The face loop over well-typed faces runs to its end. *)
Lemma faces_loop (fs : list Face) (i : nat) (b : Buffers) :
  exists b',
    forEach_from (fun face _ => faceCallback face) i (map js_of_Face fs) b = (b', Return tt)
    /\ (forallb is_number (b_vertices b) = true ->
        forallb is_number (b_normals b) = true ->
        forallb is_number (b_vertices b') = true /\ forallb is_number (b_normals b') = true)
    /\ (Forall (fun f => List.length (vertices f) = 4) fs ->
        vertexIndex b' = vertexIndex b + 4 * List.length fs
        /\ List.length (b_indices b') = List.length (b_indices b) + 6 * List.length fs).
Proof.
  revert i b. induction fs as [|f fs IH]; intros i b.
  - exists b. split; [reflexivity|]. split; [auto|].
    intros _. cbn [List.length]. lia.
  - destruct (faceCallback_step f b) as (b1 & E1 & SN & SQ).
    destruct (IH (S i) b1) as (b2 & E2 & N2 & Q2).
    exists b2. cbn [map forEach_from]. unfold bind at 1. rewrite E1, E2.
    split; [reflexivity|]. split.
    + intros Hv Hn. destruct (SN Hv Hn) as [Hv1 Hn1]. auto.
    + intro H. inversion H as [|f' fs' Hf Hfs]; subst.
      destruct (SQ Hf) as [V1 I1]. destruct (Q2 Hfs) as [V2 I2].
      cbn [List.length]. lia.
Qed.

(** The builder on any object whose [faces] is an array of well-typed
    faces and whose [name] converts to a string. *)
Lemma createMeshFromObject_typed (object nm : JSValue) (fs : list Face) :
  Get object (js "faces") = Return (JArr (map js_of_Face fs)) ->
  Get object (js "name") = Return nm ->
  toPrimitive_throws nm = false ->
  exists b,
    buildBuffers object = Return b
    /\ createMeshFromObject object =
       Return {| geometry := {| position := b_vertices b; g_normal := b_normals b;
                                index := b_indices b |} |}
    /\ consistent b
    /\ (Forall (fun f => List.length (vertices f) = 4) fs ->
        vertexIndex b = 4 * List.length fs
        /\ List.length (b_indices b) = 6 * List.length fs).
Proof.
  intros Hf Hn Hp.
  destruct (faces_loop fs 0 emptyBuffers) as (b & E & N & Q).
  exists b.
  assert (Hb : buildBuffers object = Return b).
  { unfold buildBuffers. rewrite Hf. cbn [forEach]. rewrite E. reflexivity. }
  destruct (N eq_refl eq_refl) as [Nv Nn].
  split; [exact Hb|]. split; [|split].
  - unfold createMeshFromObject, Float32BufferAttribute, colorSeed.
    rewrite Hb, (numbers_convert _ Nv), (numbers_convert _ Nn), Hn, Hp.
    rewrite andb_false_r. reflexivity.
  - apply (buildBuffers_consistent object b Hb).
  - intro H. apply Q in H. cbn in H. lia.
Qed.

Lemma Get_faces (o : Object3D) :
  Get (js_of_Object3D o) (js "faces") = Return (JArr (map js_of_Face (faces o))).
Proof. destruct o as [fs [s|]]; reflexivity. Qed.

Lemma Get_name (o : Object3D) :
  exists nm, Get (js_of_Object3D o) (js "name") = Return nm
             /\ toPrimitive_throws nm = false.
Proof. destruct o as [fs [s|]]; eexists; split; reflexivity. Qed.

(** C10. On every [Object3D] the builder completes, and in the buffers it
    hands to the geometry the positions and the normals have one length,
    three times the final vertex index, and every entry of the index list
    is below that vertex index. *)
Theorem createMeshFromObject_consistent (o : Object3D) :
  exists b : Buffers,
    buildBuffers (js_of_Object3D o) = Return b
    /\ createMeshFromObject (js_of_Object3D o) =
       Return {| geometry := {| position := b_vertices b; g_normal := b_normals b;
                                index := b_indices b |} |}
    /\ List.length (b_vertices b) = List.length (b_normals b)
    /\ List.length (b_vertices b) = 3 * vertexIndex b
    /\ Forall (fun k => k < vertexIndex b) (b_indices b).
Proof.
  destruct (Get_name o) as (nm & Hn & Hp).
  destruct (createMeshFromObject_typed (js_of_Object3D o) nm (faces o) (Get_faces o) Hn Hp)
    as (b & Hb & Hm & (Hv & Hnr & Hi) & _).
  exists b. repeat split; auto. lia.
Qed.

End GeometryFacts.

(** ** Load operation *)

Section LoadFacts.
Import Geometry JSON Load.

Lemma clear_loop_empties (children : Scene) : clear_loop children = [].
Proof. induction children; simpl; auto. Qed.

Lemma reachable_mounted (v : Viewer) :
  reachable v -> exists scene, sceneRef v = Some scene.
Proof.
  induction 1 as [|text v _ [scene IH]|v _ [scene IH]].
  - eexists; reflexivity.
  - exists scene. exact IH.
  - unfold handleJsonSubmit. rewrite IH.
    destruct (tryBlock (jsonInput v) scene) as [scene' [u|e]]; eexists; reflexivity.
Qed.

Lemma JSON_parse_throws (text : JSString) (e : JSError) :
  JSON_parse text = Throw e -> e = SyntaxError.
Proof.
  unfold JSON_parse.
  destruct (parse_value _ text) as [[v rest]|]; [destruct (skip_ws rest)|];
    congruence.
Qed.

(** A syntax error is raised before the scene is touched. *)
Lemma tryBlock_syntax_error (text : JSString) (scene : Scene) :
  JSON_parse text = Throw SyntaxError ->
  tryBlock text scene = (scene, Throw SyntaxError).
Proof. intro H. unfold tryBlock, bind, lift. rewrite H. reflexivity. Qed.

(** Once the text has parsed, the old children are gone and the rebuild
    starts from the lights and the grid. *)
Lemma tryBlock_parsed (text : JSString) (data : JSValue) (scene : Scene) :
  JSON_parse text = Return data ->
  tryBlock text scene =
  match Get data (js "objects") with
  | Return objs => forEach objectCallback objs fixtures
  | Throw e => (fixtures, Throw e)
  end.
Proof.
  intro H. unfold tryBlock, bind, lift, add, modify. rewrite H.
  rewrite clear_loop_empties. cbn [app]. reflexivity.
Qed.

Lemma objectCallback_shape (obj : JSValue) (i : nat) (s : Scene) :
  (exists e, objectCallback obj i s = (s, Throw e))
  \/ (exists g, objectCallback obj i s = (s ++ [MeshGroup g], Return tt)).
Proof.
  unfold objectCallback, bind, lift, add, modify.
  destruct (withName obj i) as [object|e]; [|left; eexists; reflexivity].
  destruct (createMeshFromObject object) as [g|e]; [|left; eexists; reflexivity].
  right; eexists; reflexivity.
Qed.

(** The object loop only ever appends render groups. *)
Lemma objects_loop_shape (l : list JSValue) (i : nat) (s : Scene) :
  exists gs c, forEach_from objectCallback i l s = (s ++ map MeshGroup gs, c).
Proof.
  revert i s. induction l as [|obj l IH]; intros i s.
  - exists [], (Return tt). cbn. rewrite app_nil_r. reflexivity.
  - cbn [forEach_from]. unfold bind at 1.
    destruct (objectCallback_shape obj i s) as [[e E]|[g E]]; rewrite E.
    + exists [], (Throw e). cbn. rewrite app_nil_r. reflexivity.
    + destruct (IH (S i) (s ++ [MeshGroup g])) as (gs & c & E').
      exists (g :: gs), c. rewrite E'. rewrite <- app_assoc. reflexivity.
Qed.

Lemma tryBlock_parsed_shape (text : JSString) (data : JSValue) (scene : Scene) :
  JSON_parse text = Return data ->
  exists gs c, tryBlock text scene = (fixtures ++ map MeshGroup gs, c).
Proof.
  intro H. rewrite (tryBlock_parsed text data scene H).
  destruct (Get data (js "objects")) as [objs|e].
  - destruct objs; try (exists [], (Throw TypeError); reflexivity).
    cbn [forEach]. apply objects_loop_shape.
  - exists [], (Throw e). reflexivity.
Qed.

Lemma submit_unfold (text : JSString) (v : Viewer) (scene : Scene) :
  sceneRef v = Some scene ->
  submit text v =
  {| sceneRef := Some (fst (tryBlock text scene));
     jsonInput := text;
     error := if fails text scene then errorMessage else [] |}.
Proof.
  intro H. unfold submit, handleJsonSubmit, fails. cbn [setJsonInput sceneRef jsonInput].
  rewrite H. destruct (tryBlock text scene) as [scene' [u|e]]; reflexivity.
Qed.

Lemma errorMessage_nonempty : errorMessage <> [].
Proof. discriminate. Qed.

Lemma syntax_error_fails (text : JSString) (scene : Scene) :
  JSON_parse text = Throw SyntaxError -> fails text scene = true.
Proof. intro H. unfold fails. rewrite (tryBlock_syntax_error text scene H). reflexivity. Qed.

(** C1, as stated, fails.  The text [{}] is well-formed JSON without an
    [objects] member: its load fails, and by then the mounted scene (the
    grid alone) has been replaced by two lights and a new grid. *)
Lemma shape_mismatch_replaces_scene :
  fails (js "{}") mountedScene = true
  /\ sceneRef (submit (js "{}") mountedViewer) = Some fixtures
  /\ sceneRef (submit (js "{}") mountedViewer) <> sceneRef mountedViewer.
Proof.
  split; [reflexivity|]. split; [reflexivity|].
  cbv. discriminate.
Qed.

(** Not every value of the wrong shape makes the load fail: reading [x] off
    a number gives [undefined] without throwing, so this text loads, with an
    empty error slot and a group of nine undefined coordinates. *)
Lemma ill_shaped_value_loads_silently :
  fails illShapedText mountedScene = false
  /\ error (submit illShapedText mountedViewer) = []
  /\ sceneRef (submit illShapedText mountedViewer)
     = Some (fixtures ++
             [MeshGroup {| geometry := {| position := repeat JUndefined 9;
                                          g_normal := repeat JUndefined 9;
                                          index := [0; 1; 2] |} |}]).
Proof. repeat split. Qed.

(** C1, amended.  Every failing load reports the error message, which is
    not empty.  When the failure is a syntax error of the text the scene is
    left exactly as it was.  When the text parses, the previous children are
    gone whatever happens next: the scene then holds the two lights, the
    grid and the groups built before the failure. *)
Theorem failed_load_reports_error (text : JSString) (v : Viewer) (scene : Scene) :
  sceneRef v = Some scene ->
  fails text scene = true ->
  error (submit text v) = errorMessage
  /\ error (submit text v) <> []
  /\ (JSON_parse text = Throw SyntaxError -> sceneRef (submit text v) = Some scene)
  /\ (forall data, JSON_parse text = Return data ->
      exists gs, sceneRef (submit text v) = Some (fixtures ++ map MeshGroup gs)).
Proof.
  intros Hs Hf. rewrite (submit_unfold text v scene Hs). cbn [error sceneRef].
  rewrite Hf. split; [reflexivity|]. split; [apply errorMessage_nonempty|]. split.
  - intro H. rewrite (tryBlock_syntax_error text scene H). reflexivity.
  - intros data H. destruct (tryBlock_parsed_shape text data scene H) as (gs & c & E).
    exists gs. rewrite E. reflexivity.
Qed.

(** The text [{not json] over the mounted viewer. *)
Lemma failed_load_reports_error_witness :
  sceneRef mountedViewer = Some mountedScene
  /\ fails (js "{not json") mountedScene = true
  /\ error (submit (js "{not json") mountedViewer) = errorMessage
  /\ sceneRef (submit (js "{not json") mountedViewer) = Some mountedScene.
Proof.
  assert (Hs : sceneRef mountedViewer = Some mountedScene) by reflexivity.
  assert (Hf : fails (js "{not json") mountedScene = true) by reflexivity.
  destruct (failed_load_reports_error (js "{not json") mountedViewer mountedScene Hs Hf)
    as (He & _ & Hk & _).
  split; [exact Hs|]. split; [exact Hf|]. split; [exact He|].
  apply Hk. reflexivity.
Defined.

(** C7. Submitting [{"objects": []}] succeeds and leaves exactly the
    ambient light, the directional light and the grid under the scene,
    whatever was there before; no render group remains and the error slot
    is empty. *)
Theorem load_empty_objects (v : Viewer) (scene : Scene) :
  sceneRef v = Some scene ->
  fails emptyObjectsText scene = false
  /\ submit emptyObjectsText v =
     {| sceneRef := Some [AmbientLight 0x404040;
                          DirectionalLight 0xffffff 0.5 (1, 1, 1)%float;
                          GridHelper 10 10 0x888888 0x444444];
        jsonInput := emptyObjectsText;
        error := [] |}
  /\ groups [AmbientLight 0x404040;
             DirectionalLight 0xffffff 0.5 (1, 1, 1)%float;
             GridHelper 10 10 0x888888 0x444444] = [].
Proof.
  intro Hs.
  assert (Hp : JSON_parse emptyObjectsText = Return (JObj [(js "objects", JArr [])]))
    by reflexivity.
  assert (Ht : tryBlock emptyObjectsText scene = (fixtures, Return tt)).
  { rewrite (tryBlock_parsed emptyObjectsText _ scene Hp). reflexivity. }
  assert (Hf : fails emptyObjectsText scene = false).
  { unfold fails. rewrite Ht. reflexivity. }
  split; [exact Hf|]. split; [|reflexivity].
  rewrite (submit_unfold emptyObjectsText v scene Hs), Hf, Ht. reflexivity.
Qed.

(** The same submission over a viewer that shows the unit square. *)
Lemma load_empty_objects_witness :
  exists scene,
    sceneRef (submit squareSceneText mountedViewer) = Some scene
    /\ List.length (groups scene) = 1
    /\ sceneRef (submit emptyObjectsText (submit squareSceneText mountedViewer))
       = Some fixtures.
Proof.
  eexists. split; [reflexivity|]. split; [reflexivity|].
  destruct (load_empty_objects (submit squareSceneText mountedViewer) _ eq_refl)
    as (_ & H & _).
  rewrite H. reflexivity.
Defined.

(** The object callback on a well-typed object adds one group. *)
Lemma objectCallback_typed (o : Object3D) (i : nat) (s : Scene) :
  exists g,
    objectCallback (js_of_Object3D o) i s = (s ++ [MeshGroup g], Return tt)
    /\ (Forall (fun f => List.length (vertices f) = 4) (faces o) ->
        vertexCount g = 4 * List.length (faces o)
        /\ triangleCount g = 2 * List.length (faces o)).
Proof.
  assert (Hw : exists object nm,
             withName (js_of_Object3D o) i = Return object
             /\ Get object (js "faces") = Return (JArr (map js_of_Face (faces o)))
             /\ Get object (js "name") = Return nm
             /\ toPrimitive_throws nm = false).
  { destruct o as [fs [[|c s']|]]; do 2 eexists; repeat split; reflexivity. }
  destruct Hw as (object & nm & Hw & Hf & Hn & Hp).
  destruct (createMeshFromObject_typed object nm (faces o) Hf Hn Hp)
    as (b & _ & Hm & (Hv & _ & _) & Hq).
  eexists. unfold objectCallback, bind, lift, add, modify. rewrite Hw, Hm.
  split; [reflexivity|].
  intro H. destruct (Hq H) as [Hvi Hix].
  unfold vertexCount, triangleCount. cbn [geometry position index].
  rewrite Hv, Hix, Hvi. split.
  - rewrite (Nat.mul_comm 3). apply Nat.div_mul. discriminate.
  - replace (6 * List.length (faces o)) with (2 * List.length (faces o) * 3) by lia.
    apply Nat.div_mul. discriminate.
Qed.

Lemma groups_app (s1 s2 : Scene) : groups (s1 ++ s2) = groups s1 ++ groups s2.
Proof.
  induction s1 as [|c s1 IH]; [reflexivity|].
  destruct c; cbn; rewrite ?IH; reflexivity.
Qed.

Lemma groups_MeshGroup (gs : list Group) : groups (map MeshGroup gs) = gs.
Proof. induction gs as [|g gs IH]; cbn; [|rewrite IH]; reflexivity. Qed.

(** The object loop over well-typed objects of quad faces. *)
Lemma objects_loop_typed (M : nat) (os : list Object3D) (i : nat) (s : Scene) :
  Forall (fun o => List.length (faces o) = M
                   /\ Forall (fun f => List.length (vertices f) = 4) (faces o)) os ->
  exists gs,
    forEach_from objectCallback i (map js_of_Object3D os) s
    = (s ++ map MeshGroup gs, Return tt)
    /\ List.length gs = List.length os
    /\ totalVertices gs = List.length os * M * 4
    /\ totalTriangles gs = List.length os * M * 2.
Proof.
  revert i s. induction os as [|o os IH]; intros i s H.
  - exists []. cbn. rewrite app_nil_r. auto.
  - inversion H as [|o' os' [HM Hq] Hos]; subst o' os'.
    destruct (objectCallback_typed o i s) as (g & Eg & Hg).
    destruct (Hg Hq) as [Hv Ht].
    destruct (IH (S i) (s ++ [MeshGroup g]) Hos) as (gs & E & Hl & Tv & Tt).
    exists (g :: gs). cbn [map forEach_from]. unfold bind at 1. rewrite Eg, E.
    rewrite <- app_assoc. split; [reflexivity|].
    unfold totalVertices, totalTriangles, list_sum in *.
    cbn [map fold_right List.length].
    rewrite Hl, Tv, Tt, Hv, Ht, HM. repeat split; lia.
Qed.

(** C6. When the submitted text describes [N] objects of [M] quad faces
    each, the load succeeds and the render groups under the scene are [N]
    in number, with [N * M * 4] vertices and [N * M * 2] triangles in
    total. *)
Theorem load_quads_counts (d : SceneData) (N M : nat)
        (text : JSString) (v : Viewer) (scene : Scene) :
  sceneRef v = Some scene ->
  JSON_parse text = Return (js_of_SceneData d) ->
  List.length (objects d) = N ->
  Forall (fun o => List.length (faces o) = M
                   /\ Forall (fun f => List.length (vertices f) = 4) (faces o))
         (objects d) ->
  exists scene',
    sceneRef (submit text v) = Some scene'
    /\ error (submit text v) = []
    /\ List.length (groups scene') = N
    /\ totalVertices (groups scene') = N * M * 4
    /\ totalTriangles (groups scene') = N * M * 2.
Proof.
  intros Hs Hp HN Hq.
  destruct (objects_loop_typed M (objects d) 0 fixtures Hq) as (gs & E & Hl & Tv & Tt).
  assert (Ht : tryBlock text scene = (fixtures ++ map MeshGroup gs, Return tt)).
  { rewrite (tryBlock_parsed text _ scene Hp). cbn [js_of_SceneData Get own].
    change (str_eqb (js "objects") (js "objects")) with true. cbn [forEach]. exact E. }
  exists (fixtures ++ map MeshGroup gs).
  rewrite (submit_unfold text v scene Hs). unfold fails. rewrite Ht.
  cbn [fst snd sceneRef error].
  rewrite groups_app, groups_MeshGroup. cbn [groups fixtures app].
  subst N. auto.
Qed.

(** The unit square: one object of one quad face gives four vertices and
    two triangles. *)
Lemma load_quads_counts_witness :
  exists scene',
    sceneRef (submit squareSceneText mountedViewer) = Some scene'
    /\ error (submit squareSceneText mountedViewer) = []
    /\ List.length (groups scene') = 1
    /\ totalVertices (groups scene') = 1 * 1 * 4
    /\ totalTriangles (groups scene') = 1 * 1 * 2.
Proof.
  apply (load_quads_counts squareScene 1 1 squareSceneText mountedViewer mountedScene).
  - reflexivity.
  - reflexivity.
  - reflexivity.
  - repeat constructor.
Defined.

End LoadFacts.
(** ** Orbit camera *)

Section CameraFacts.
Import Camera.
Local Open Scope R_scope.

Lemma sqrt_unique (a r : R) : 0 <= r -> r * r = a -> sqrt a = r.
Proof. intros Hr H. apply sqrt_lem_1; [rewrite <- H; nra|exact Hr|exact H]. Qed.

Lemma length_nonneg (v : Vector3) : 0 <= length v.
Proof. apply sqrt_pos. Qed.

Lemma length_sqr (v : Vector3) :
  length v * length v = x v * x v + y v * y v + z v * z v.
Proof. unfold length. apply sqrt_sqrt. nra. Qed.

(** [Math.atan2] and the radius give back the point they come from. *)
Lemma polar (b a : R) :
  sqrt (a * a + b * b) * cos (atan2 b a) = a
  /\ sqrt (a * a + b * b) * sin (atan2 b a) = b.
Proof.
  set (t := b / a).
  assert (Hpos : 0 < sqrt (1 + t²)).
  { apply sqrt_lt_R0. unfold Rsqr. nra. }
  assert (Hsq : sqrt (1 + t²) * sqrt (1 + t²) = 1 + t * t).
  { apply sqrt_sqrt. unfold Rsqr. nra. }
  unfold atan2.
  destruct (Rlt_dec 0 a) as [Ha|Ha].
  - assert (Hr : sqrt (a * a + b * b) = a * sqrt (1 + t²)).
    { apply sqrt_unique.
      - apply Rmult_le_pos; lra.
      - transitivity (a * a * (sqrt (1 + t²) * sqrt (1 + t²))); [ring|].
        rewrite Hsq. unfold t. field. lra. }
    fold t. rewrite Hr, cos_atan, sin_atan. split.
    + field. lra.
    + unfold t in *. field. split; lra.
  - destruct (Rlt_dec a 0) as [Hn|Hn].
    + assert (Hr : sqrt (a * a + b * b) = - a * sqrt (1 + t²)).
      { apply sqrt_unique.
        - apply Rmult_le_pos; lra.
        - transitivity (a * a * (sqrt (1 + t²) * sqrt (1 + t²))); [ring|].
          rewrite Hsq. unfold t. field. lra. }
      fold t. rewrite Hr.
      destruct (Rle_dec 0 b) as [Hb|Hb].
      * rewrite neg_cos, neg_sin, cos_atan, sin_atan. split.
        -- field. lra.
        -- unfold t in *. field. split; lra.
      * rewrite cos_minus, sin_minus, cos_PI, sin_PI, cos_atan, sin_atan. split.
        -- field. lra.
        -- unfold t in *. field. split; lra.
    + assert (a = 0) by lra. subst a.
      replace (0 * 0 + b * b) with (b * b) by ring.
      destruct (Rlt_dec 0 b) as [Hb|Hb].
      * rewrite cos_PI2, sin_PI2, sqrt_square by lra. split; ring.
      * destruct (Rlt_dec b 0) as [Hb'|Hb'].
        -- rewrite cos_neg, sin_neg, cos_PI2, sin_PI2.
           replace (b * b) with (- b * - b) by ring.
           rewrite sqrt_square by lra. split; ring.
        -- assert (b = 0) by lra. subst b.
           replace (0 * 0) with 0 by ring. rewrite sqrt_0. split; ring.
Qed.

(** The angle-based update of [y] and [z] is the rotation of the point
    [(z, y)] by the angle of the vertical delta. *)
Lemma orbit_unfold (deltaX deltaY : R) (p : Vector3) :
  orbit deltaX deltaY p =
  let a := deltaX * rotationSpeed in
  let b := deltaY * rotationSpeed in
  let x1 := x p * cos a - z p * sin a in
  let z1 := x1 * sin a + z p * cos a in
  {| x := x1; y := y p * cos b + z1 * sin b; z := z1 * cos b - y p * sin b |}.
Proof.
  unfold orbit. cbv zeta.
  set (a := deltaX * rotationSpeed). set (b := deltaY * rotationSpeed).
  set (x1 := x p * cos a - z p * sin a).
  set (z1 := x1 * sin a + z p * cos a).
  destruct (polar (y p) z1) as [Hc Hs].
  set (radius := sqrt (z1 * z1 + y p * y p)) in *.
  set (angle := atan2 (y p) z1) in *.
  rewrite sin_plus, cos_plus. f_equal.
  - transitivity (radius * sin angle * cos b + radius * cos angle * sin b); [ring|].
    rewrite Hs, Hc. reflexivity.
  - transitivity (radius * cos angle * cos b - radius * sin angle * sin b); [ring|].
    rewrite Hs, Hc. reflexivity.
Qed.

Lemma orbit_vertical (deltaY : R) (p : Vector3) :
  orbit 0 deltaY p = tilt (deltaY * rotationSpeed) p.
Proof.
  rewrite orbit_unfold. cbv zeta. rewrite Rmult_0_l, cos_0, sin_0.
  unfold tilt. f_equal; ring.
Qed.

Lemma tilt_tilt (b1 b2 : R) (p : Vector3) : tilt b2 (tilt b1 p) = tilt (b1 + b2) p.
Proof.
  unfold tilt; cbn [x y z]. rewrite sin_plus, cos_plus. f_equal; ring.
Qed.

Lemma tilt_0 (p : Vector3) : tilt 0 p = p.
Proof.
  unfold tilt. rewrite cos_0, sin_0. destruct p as [a b c]; cbn [x y z].
  f_equal; ring.
Qed.

(** A tilt keeps the distance from the origin. *)
Lemma length_tilt (b : R) (p : Vector3) : length (tilt b p) = length p.
Proof.
  unfold length, tilt; cbn [x y z]. f_equal.
  pose proof (sin2_cos2 b) as H. unfold Rsqr in H.
  transitivity (x p * x p + (y p * y p + z p * z p) * (sin b * sin b + cos b * cos b));
    [ring|]. rewrite H. ring.
Qed.

Lemma last_cons_default {A : Type} (a : A) (l : list A) (d d' : A) :
  last (a :: l) d = last (a :: l) d'.
Proof.
  revert a. induction l as [|b l IH]; intro a; [reflexivity|].
  change (last (b :: l) d = last (b :: l) d'). apply IH.
Qed.

(** While the cursor keeps the column it went down in, the camera is the
    starting position tilted by the vertical distance covered so far. *)
Lemma vertical_moves (p0 : Vector3) (sx sy : R) (moves : list MouseEvent) (c : Controls) :
  Forall (fun e => clientX e = sx) moves ->
  isMouseDown (mouseControlsRef c) = true ->
  lastX (mouseControlsRef c) = sx ->
  cameraRef c = Some (tilt ((lastY (mouseControlsRef c) - sy) * rotationSpeed) p0) ->
  cameraRef (fold_left (fun c e => handleMouseMove e c) moves c) =
  Some (tilt ((clientY (last moves {| clientX := sx;
                                      clientY := lastY (mouseControlsRef c) |}) - sy)
              * rotationSpeed) p0).
Proof.
  revert c. induction moves as [|e moves IH]; intros c Hx Hd Hl Hc.
  - exact Hc.
  - inversion Hx as [|e' moves' He Hm]; subst e' moves'.
    cbn [fold_left].
    assert (Hstep : handleMouseMove e c =
                    {| cameraRef := Some (tilt ((clientY e - sy) * rotationSpeed) p0);
                       mouseControlsRef :=
                         {| isMouseDown := true;
                            startX := startX (mouseControlsRef c);
                            startY := startY (mouseControlsRef c);
                            lastX := clientX e; lastY := clientY e |} |}).
    { unfold handleMouseMove. rewrite Hd, Hc, Hl, He.
      replace (sx - sx) with 0 by ring.
      rewrite orbit_vertical, tilt_tilt. do 3 f_equal. ring. }
    assert (Hlast : forall d,
               last moves {| clientX := sx; clientY := clientY e |} = last (e :: moves) d).
    { intro d. destruct moves as [|e2 moves].
      - cbn [last]. destruct e as [ex ey]; cbn in *. subst ex. reflexivity.
      - change (last (e :: e2 :: moves) d) with (last (e2 :: moves) d).
        apply last_cons_default. }
    rewrite Hstep. rewrite (IH _ Hm); cbn [mouseControlsRef cameraRef isMouseDown lastX lastY];
      auto.
    rewrite (Hlast {| clientX := sx; clientY := lastY (mouseControlsRef c) |}).
    reflexivity.
Qed.

(** C4, as stated, fails.  From the mounted camera at [(0, 0, 5)], dragging
    100 pixels to the right and back to the starting point ends with the
    camera at a negative [x]: the gesture has zero net delta and the camera
    has moved. *)
Lemma horizontal_round_trip_moves_camera :
  exists p',
    cameraRef (drag {| clientX := 0; clientY := 0 |}
                    [{| clientX := 100; clientY := 0 |}; {| clientX := 0; clientY := 0 |}]
                    initialControls) = Some p'
    /\ x p' < 0
    /\ cameraRef initialControls = Some {| x := 0; y := 0; z := 5 |}.
Proof.
  eexists. split; [|split; [|reflexivity]].
  - unfold drag, initialControls, handleMouseDown, handleMouseMove.
    cbn [fold_left mouseControlsRef cameraRef isMouseDown lastX lastY clientX clientY
         startX startY].
    reflexivity.
  - rewrite !orbit_unfold. cbv zeta. cbn [x y z]. unfold rotationSpeed.
    replace ((100 - 0) * (1 / 100)) with 1 by field.
    replace ((0 - 100) * (1 / 100)) with (- (1)) by field.
    replace ((0 - 0) * (1 / 100)) with 0 by field.
    rewrite cos_neg, sin_neg, cos_0, sin_0.
    assert (Hs : 0 < sin 1).
    { apply sin_gt_0; [lra|]. pose proof PI2_1. lra. }
    match goal with
    | |- ?e < 0 => replace e with (- (5 * (sin 1 * (sin 1 * sin 1)))) by ring
    end.
    assert (0 < sin 1 * (sin 1 * sin 1)) by (repeat apply Rmult_lt_0_compat; exact Hs).
    lra.
Qed.

(** C4, amended.  A drag gesture made of vertical moves only (the cursor
    keeps the column of the mouse-down) that ends where it started leaves the
    camera position as it was. *)
Theorem vertical_drag_returns
        (c : Controls) (p : Vector3) (start : MouseEvent) (moves : list MouseEvent) :
  cameraRef c = Some p ->
  Forall (fun e => clientX e = clientX start) moves ->
  clientY (last moves start) = clientY start ->
  cameraRef (drag start moves c) = Some p.
Proof.
  intros Hc Hx Hy. unfold drag.
  rewrite (vertical_moves p (clientX start) (clientY start) moves (handleMouseDown start c));
    cbn [handleMouseDown mouseControlsRef cameraRef isMouseDown lastX lastY]; auto.
  - destruct start as [sx sy]; cbn [clientX clientY] in *. rewrite Hy.
    replace ((sy - sy) * rotationSpeed) with 0 by ring. rewrite tilt_0. reflexivity.
  - replace ((clientY start - clientY start) * rotationSpeed) with 0 by ring.
    rewrite tilt_0. exact Hc.
Qed.

(** The mounted camera, dragged 40 pixels down, 70 up and 30 down. *)
Lemma vertical_drag_returns_witness :
  cameraRef (drag {| clientX := 10; clientY := 20 |}
                  [{| clientX := 10; clientY := 60 |};
                   {| clientX := 10; clientY := -10 |};
                   {| clientX := 10; clientY := 20 |}]
                  initialControls) = Some {| x := 0; y := 0; z := 5 |}.
Proof.
  apply vertical_drag_returns.
  - reflexivity.
  - repeat constructor.
  - reflexivity.
Defined.

(** C5: the code at one mouse move.  From the mounted camera at distance 5,
    a move of 100 pixels to the right puts the camera at a distance below
    5: the horizontal update is not a rotation, because [position.z] is
    computed from the [position.x] already overwritten. *)
Lemma horizontal_move_changes_distance :
  cameraRef (handleMouseMove {| clientX := 100; clientY := 0 |}
               (handleMouseDown {| clientX := 0; clientY := 0 |} initialControls))
  = Some (orbit 100 0 {| x := 0; y := 0; z := 5 |})
  /\ length {| x := 0; y := 0; z := 5 |} = 5
  /\ length (orbit 100 0 {| x := 0; y := 0; z := 5 |}) < 5.
Proof.
  split; [|split].
  - unfold handleMouseMove, handleMouseDown, initialControls.
    cbn [mouseControlsRef cameraRef isMouseDown lastX lastY clientX clientY].
    do 2 f_equal; ring.
  - unfold length; cbn [x y z]. apply sqrt_unique; lra.
  - rewrite orbit_unfold. cbv zeta. cbn [x y z]. unfold rotationSpeed.
    replace (100 * (1 / 100)) with 1 by field.
    replace (0 * (1 / 100)) with 0 by ring.
    rewrite cos_0, sin_0.
    set (s := sin 1). set (k := cos 1).
    assert (Hs : 0 < s).
    { apply sin_gt_0; [lra|]. pose proof PI2_1. lra. }
    assert (Hk : 1 / 2 < k).
    { unfold k. replace 1 with (2 * (1 / 2)) at 2 by field. rewrite cos_2a_sin.
      assert (H0 : 0 < sin (1 / 2)).
      { apply sin_gt_0; [lra|]. pose proof PI2_1. lra. }
      assert (H1 : sin (1 / 2) < 1 / 2) by (apply sin_lt_x; lra).
      nra. }
    assert (Hsk : s * s + k * k = 1).
    { pose proof (sin2_cos2 1) as H. unfold Rsqr in H. exact H. }
    match goal with |- length ?q < 5 => pose proof (length_nonneg q) as Hn;
                                         pose proof (length_sqr q) as Hq end.
    cbn [x y z] in Hq.
    assert (Hlt : (0 - 5 * s) * (0 - 5 * s)
                  + (0 * 1 + ((0 - 5 * s) * s + 5 * k) * 0)
                    * (0 * 1 + ((0 - 5 * s) * s + 5 * k) * 0)
                  + (((0 - 5 * s) * s + 5 * k) * 1 - 0 * 0)
                    * (((0 - 5 * s) * s + 5 * k) * 1 - 0 * 0) < 25).
    { assert (0 < (s * s) * (2 * k - s * s)) by (apply Rmult_lt_0_compat; nra).
      nra. }
    nra.
Qed.

End CameraFacts.

(** ** Colour generator *)

Section ColorFacts.
Import Color.
Local Open Scope Z_scope.

Lemma consecutive_differ_sound (n : nat) (i : Z) (c : Color) :
  c = generateColor (float_of_Z i) ->
  consecutive_differ n i c = true ->
  forall k, i <= k < i + Z.of_nat n ->
            channels_differ (generateColor (float_of_Z k))
                            (generateColor (float_of_Z (k + 1))) = true.
Proof.
  revert i c. induction n as [|n IH]; intros i c Hc H k Hk; [lia|].
  cbn [consecutive_differ] in H. apply andb_prop in H. destruct H as [H1 H2].
  destruct (Z.eq_dec k i) as [->|Hne].
  - rewrite <- Hc. exact H1.
  - apply (IH (i + 1) _ eq_refl H2). lia.
Qed.

(** *** The generator in exact arithmetic *)

Lemma trunc_comp (a b : Q) : (a == b)%Q -> ColorExact.trunc a = ColorExact.trunc b.
Proof.
  intro H. unfold ColorExact.trunc.
  assert (E : Qle_bool 0 a = Qle_bool 0 b) by (rewrite H; reflexivity).
  rewrite E. destruct (Qle_bool 0 b); rewrite H; reflexivity.
Qed.

Lemma trunc_quot (n : Z) (d : positive) : ColorExact.trunc (n # d) = Z.quot n (Zpos d).
Proof.
  unfold ColorExact.trunc, Qceiling, Qfloor, Qle_bool. cbn [Qnum Qden Qopp].
  rewrite Z.mul_1_r. cbn [Z.mul].
  destruct (Z.leb_spec 0 n) as [Hn|Hn].
  - symmetry. apply Z.quot_div_nonneg; lia.
  - rewrite <- (Z.opp_involutive n) at 2. rewrite Z.quot_opp_l by discriminate.
    f_equal. symmetry. apply Z.quot_div_nonneg; lia.
Qed.

(** In exact arithmetic the hue is the remainder of [137508 * index] by
    360000, in thousandths of a degree. *)
Lemma exact_hue (i : Z) :
  ColorExact.rem (ColorExact.mul (inject_Z i) 137.508) 360
  = Qred (Z.rem (137508 * i) 360000 # 1000).
Proof.
  unfold ColorExact.rem, ColorExact.sub, ColorExact.mul, ColorExact.div.
  apply Qred_complete.
  assert (T : ColorExact.trunc (Qred (Qred (inject_Z i * 137.508) / 360))
              = Z.quot (137508 * i) 360000).
  { rewrite <- trunc_quot. apply trunc_comp. rewrite !Qred_correct.
    unfold Qeq. cbn -[Z.mul]. lia. }
  rewrite T. rewrite !Qred_correct.
  pose proof (Z.quot_rem' (137508 * i) 360000) as E.
  set (q := Z.quot (137508 * i) 360000) in *.
  set (m := Z.rem (137508 * i) 360000) in *.
  unfold Qeq. cbn -[Z.mul]. lia.
Qed.

Lemma exact_hue_rem (i : Z) :
  ColorExact.rem (ColorExact.mul (inject_Z i) 137.508) 360
  = ColorExact.rem (ColorExact.mul (inject_Z (Z.rem i 30000)) 137.508) 360.
Proof.
  rewrite !exact_hue. do 2 f_equal.
  pose proof (Z.quot_rem' i 30000) as E.
  set (q := Z.quot i 30000) in *. set (r := Z.rem i 30000) in *.
  replace (137508 * i) with (137508 * r + (11459 * q) * 360000) by lia.
  apply Z.rem_add; [discriminate|].
  replace (137508 * r + 11459 * q * 360000) with (137508 * i) by lia.
  pose proof (Z.rem_sign_mul i 30000 ltac:(discriminate)) as S. fold r in S.
  nia.
Qed.

(** The colour of an index is the colour of its remainder by 30000. *)
Lemma exact_color_rem (i : Z) :
  ColorExact.generateColor i = ColorExact.generateColor (Z.rem i 30000).
Proof. unfold ColorExact.generateColor. rewrite (exact_hue_rem i). reflexivity. Qed.

Lemma exact_consecutive_differ_sound (n : nat) (i : Z) (c : ColorExact.Color) :
  c = ColorExact.generateColor i ->
  ColorExact.consecutive_differ n i c = true ->
  forall k, i <= k < i + Z.of_nat n ->
            ColorExact.channels_differ (ColorExact.generateColor k)
                                       (ColorExact.generateColor (k + 1)) = true.
Proof.
  revert i c. induction n as [|n IH]; intros i c Hc H k Hk; [lia|].
  cbn [ColorExact.consecutive_differ] in H. apply andb_prop in H. destruct H as [H1 H2].
  destruct (Z.eq_dec k i) as [->|Hne].
  - rewrite <- Hc. exact H1.
  - apply (IH (i + 1) _ eq_refl H2). lia.
Qed.

(** One period of the hue sequence on each side of zero, and the two pairs
    at which the remainder wraps around. *)
Lemma exact_period_table :
  (forall k, -29999 <= k < 29999 ->
             ColorExact.channels_differ (ColorExact.generateColor k)
                                        (ColorExact.generateColor (k + 1)) = true)
  /\ ColorExact.channels_differ (ColorExact.generateColor 29999)
                                (ColorExact.generateColor 0) = true
  /\ ColorExact.channels_differ (ColorExact.generateColor 0)
                                (ColorExact.generateColor (-29999)) = true.
Proof.
  split; [|split].
  - intros k Hk.
    apply (exact_consecutive_differ_sound (Z.to_nat 59998) (-29999) _ eq_refl).
    + vm_compute. reflexivity.
    + rewrite Z2Nat.id; lia.
  - vm_compute. reflexivity.
  - vm_compute. reflexivity.
Qed.

(** The remainders of two consecutive integers are consecutive, or wrap. *)
Lemma rem_succ (i : Z) :
  let a := Z.rem i 30000 in
  let b := Z.rem (i + 1) 30000 in
  (-29999 <= a < 29999 /\ b = a + 1)
  \/ (a = 29999 /\ b = 0)
  \/ (a = 0 /\ b = -29999).
Proof.
  cbv zeta.
  destruct (Z_le_gt_dec 0 i) as [Hi|Hi].
  - rewrite !Z.rem_mod_nonneg by lia.
    Z.to_euclidean_division_equations. lia.
  - assert (Ha : Z.rem i 30000 = - ((- i) mod 30000)).
    { rewrite <- Z.rem_mod_nonneg by lia. rewrite <- Z.rem_opp_l by discriminate.
      f_equal. lia. }
    assert (Hb : Z.rem (i + 1) 30000 = - ((- i - 1) mod 30000)).
    { rewrite <- Z.rem_mod_nonneg by lia. rewrite <- Z.rem_opp_l by discriminate.
      f_equal. lia. }
    rewrite Ha, Hb. Z.to_euclidean_division_equations. lia.
Qed.

(** In exact arithmetic no two consecutive integer indices share a colour. *)
Lemma exact_colors_differ (i : Z) :
  ColorExact.channels_differ (ColorExact.generateColor i)
                             (ColorExact.generateColor (i + 1)) = true.
Proof.
  rewrite (exact_color_rem i), (exact_color_rem (i + 1)).
  destruct exact_period_table as (T & W1 & W2).
  destruct (rem_succ i) as [[Ha Hb]|[[Ha Hb]|[Ha Hb]]]; rewrite Hb.
  - apply T. exact Ha.
  - rewrite Ha. exact W1.
  - rewrite Ha. exact W2.
Qed.

(** *** The generator as the code computes it *)




End ColorFacts.

(** ** Further properties of the geometry builder *)

Section MeshFacts.
Import Geometry Mesh.

(** The face loop on well-typed faces, as list functions. *)
Lemma faces_loop_spec (fs : list Face) (i : nat) (b : Buffers) :
  forEach_from (fun face _ => faceCallback face) i (map js_of_Face fs) b =
  ({| b_vertices := b_vertices b ++ positionsOf fs;
      b_normals := b_normals b ++ normalsOf fs;
      b_indices := b_indices b ++ indicesFrom (vertexIndex b) fs;
      vertexIndex := vertexIndex b + emitted fs |}, Return tt).
Proof.
  revert i b. induction fs as [|f fs IH]; intros i b.
  - cbn. rewrite !app_nil_r, Nat.add_0_r. destruct b; reflexivity.
  - cbn [map forEach_from]. unfold bind at 1. rewrite faceCallback_unfold. cbv zeta.
    unfold positionsOf, normalsOf, emitted in *. cbn [filter map indicesFrom list_sum fold_right].
    unfold emits, fan, arity.
    destruct (Nat.eqb (List.length (vertices f)) 4) eqn:E4;
      [|destruct (Nat.eqb (List.length (vertices f)) 3) eqn:E3]; rewrite IH;
      cbn [orb flat_map advance push_indices b_vertices b_normals b_indices vertexIndex];
      rewrite <- ?app_assoc, ?Nat.add_assoc, ?Nat.add_0_r; reflexivity.
Qed.

Lemma buildBuffers_lists (object : JSValue) (fs : list Face) :
  Get object (js "faces") = Return (JArr (map js_of_Face fs)) ->
  buildBuffers object =
  Return {| b_vertices := positionsOf fs; b_normals := normalsOf fs;
            b_indices := indicesFrom 0 fs; vertexIndex := emitted fs |}.
Proof.
  intro H. unfold buildBuffers. rewrite H. cbn [forEach].
  rewrite faces_loop_spec. reflexivity.
Qed.

Lemma createMeshFromObject_lists (o : Object3D) :
  createMeshFromObject (js_of_Object3D o) = Return (groupOf o).
Proof.
  destruct (Get_name o) as (nm & Hn & Hp).
  destruct (createMeshFromObject_typed (js_of_Object3D o) nm (faces o) (Get_faces o) Hn Hp)
    as (b & Hb & Hm & _).
  rewrite (buildBuffers_lists _ _ (Get_faces o)) in Hb.
  injection Hb as <-. exact Hm.
Qed.


Lemma face_kind (f : Face) :
  (List.length (vertices f) = 4 /\ arity f = 4 /\ emits f = true
   /\ forall i, fan i f = [i; i + 1; i + 2; i; i + 2; i + 3])
  \/ (List.length (vertices f) = 3 /\ arity f = 3 /\ emits f = true
      /\ forall i, fan i f = [i; i + 1; i + 2])
  \/ (List.length (vertices f) <> 4 /\ List.length (vertices f) <> 3
      /\ arity f = 0 /\ emits f = false /\ forall i, fan i f = []).
Proof.
  unfold arity, emits, fan.
  destruct (Nat.eqb (List.length (vertices f)) 4) eqn:E4;
    [|destruct (Nat.eqb (List.length (vertices f)) 3) eqn:E3].
  - apply Nat.eqb_eq in E4. left. auto.
  - apply Nat.eqb_eq in E3. right; left. auto.
  - apply Nat.eqb_neq in E4, E3. right; right. auto.
Qed.

Lemma length_flat_map_3 {A : Type} (h : A -> list JSValue) (l : list A) :
  (forall a, List.length (h a) = 3) -> List.length (flat_map h l) = 3 * List.length l.
Proof.
  intro H. induction l as [|a l IH]; cbn [flat_map List.length]; [reflexivity|].
  rewrite length_app, IH, H. lia.
Qed.

Lemma emitted_cons (f : Face) (fs : list Face) : emitted (f :: fs) = arity f + emitted fs.
Proof. reflexivity. Qed.

Lemma length_positionsOf (fs : list Face) :
  List.length (positionsOf fs) = 3 * emitted fs.
Proof.
  unfold positionsOf. induction fs as [|f fs IH]; [reflexivity|].
  rewrite emitted_cons. cbn [filter].
  destruct (face_kind f) as [(L & A & E & _)|[(L & A & E & _)|(_ & _ & A & E & _)]];
    rewrite A, E; cbn [flat_map]; rewrite ?length_app, ?IH;
    rewrite ?(length_flat_map_3 coords) by reflexivity; lia.
Qed.

Lemma length_normalsOf (fs : list Face) :
  List.length (normalsOf fs) = 3 * emitted fs.
Proof.
  unfold normalsOf. induction fs as [|f fs IH]; [reflexivity|].
  rewrite emitted_cons. cbn [filter].
  destruct (face_kind f) as [(L & A & E & _)|[(L & A & E & _)|(_ & _ & A & E & _)]];
    rewrite A, E; cbn [flat_map]; rewrite ?length_app, ?IH;
    rewrite ?(length_flat_map_3 (fun _ : Vertex => coords (normal f))) by reflexivity; lia.
Qed.

Lemma emitted_counts (fs : list Face) : emitted fs = 4 * quads fs + 3 * triangles fs.
Proof.
  unfold quads, triangles. induction fs as [|f fs IH]; [reflexivity|].
  rewrite emitted_cons, IH. cbn [filter].
  destruct (face_kind f) as [(L & A & _)|[(L & A & _)|(L4 & L3 & A & _)]]; rewrite A.
  - rewrite L. cbn [Nat.eqb List.length]. lia.
  - rewrite L. cbn [Nat.eqb List.length]. lia.
  - apply Nat.eqb_neq in L4, L3. rewrite L4, L3. lia.
Qed.

Lemma length_indicesFrom (i : nat) (fs : list Face) :
  List.length (indicesFrom i fs) = 3 * (2 * quads fs + triangles fs).
Proof.
  unfold quads, triangles. revert i. induction fs as [|f fs IH]; intro i; [reflexivity|].
  cbn [indicesFrom filter]. rewrite length_app, IH.
  destruct (face_kind f) as [(L & _ & _ & F)|[(L & _ & _ & F)|(L4 & L3 & _ & _ & F)]];
    rewrite F.
  - rewrite L. cbn [Nat.eqb List.length]. lia.
  - rewrite L. cbn [Nat.eqb List.length]. lia.
  - apply Nat.eqb_neq in L4, L3. rewrite L4, L3. cbn [List.length]. lia.
Qed.

(** X2. An object with [q] faces of four vertices and [t] faces of three,
    among faces of any other size, gives a group of [4 q + 3 t] vertices
    and [2 q + t] triangles. *)
Theorem mixed_faces_counts (o : Object3D) :
  exists g,
    createMeshFromObject (js_of_Object3D o) = Return g
    /\ vertexCount g = 4 * quads (faces o) + 3 * triangles (faces o)
    /\ triangleCount g = 2 * quads (faces o) + triangles (faces o).
Proof.
  eexists. split; [apply createMeshFromObject_lists|].
  unfold vertexCount, triangleCount, groupOf. cbn [geometry position index].
  rewrite length_positionsOf, length_indicesFrom, emitted_counts. split.
  - rewrite (Nat.mul_comm 3). apply Nat.div_mul. discriminate.
  - rewrite (Nat.mul_comm 3). apply Nat.div_mul. discriminate.
Qed.

Lemma In_fan (i k : nat) (f : Face) : In k (fan i f) <-> i <= k < i + arity f.
Proof.
  destruct (face_kind f) as [(_ & A & _ & F)|[(_ & A & _ & F)|(_ & _ & A & _ & F)]];
    rewrite A, F; cbn [In]; lia.
Qed.

Lemma In_indicesFrom (i k : nat) (fs : list Face) :
  In k (indicesFrom i fs) <-> i <= k < i + emitted fs.
Proof.
  revert i. induction fs as [|f fs IH]; intro i.
  - cbn. lia.
  - rewrite emitted_cons. cbn [indicesFrom]. rewrite in_app_iff, In_fan, IH. lia.
Qed.

(** X3. In the group built from a well-typed object the index list names
    exactly the vertices emitted: every entry is below the vertex count,
    and every vertex below the count is a corner of some triangle. *)
Theorem every_vertex_indexed (o : Object3D) :
  exists g,
    createMeshFromObject (js_of_Object3D o) = Return g
    /\ forall k, In k (index (geometry g)) <-> k < vertexCount g.
Proof.
  eexists. split; [apply createMeshFromObject_lists|].
  intro k. unfold vertexCount, groupOf. cbn [geometry position index].
  rewrite In_indicesFrom, length_positionsOf.
  rewrite (Nat.mul_comm 3), Nat.div_mul by discriminate. lia.
Qed.

Lemma indicesFrom_shift (i n : nat) (fs : list Face) :
  indicesFrom (n + i) fs = map (fun k => n + k) (indicesFrom i fs).
Proof.
  revert i. induction fs as [|f fs IH]; intro i; [reflexivity|].
  cbn [indicesFrom]. rewrite map_app. rewrite <- IH.
  replace (n + i + arity f) with (n + (i + arity f)) by lia. f_equal.
  destruct (face_kind f) as [(_ & _ & _ & F)|[(_ & _ & _ & F)|(_ & _ & _ & _ & F)]];
    rewrite !F; cbn [map]; repeat (f_equal; try lia).
Qed.

Lemma indicesFrom_app (i : nat) (fs1 fs2 : list Face) :
  indicesFrom i (fs1 ++ fs2) = indicesFrom i fs1 ++ indicesFrom (i + emitted fs1) fs2.
Proof.
  revert i. induction fs1 as [|f fs1 IH]; intro i.
  - cbn. rewrite Nat.add_0_r. reflexivity.
  - rewrite emitted_cons. cbn [app indicesFrom]. rewrite IH, <- app_assoc.
    rewrite Nat.add_assoc. reflexivity.
Qed.

(** X4. Putting the faces of two objects into one object gives the two
    meshes one after the other: positions and normals are concatenated, and
    the index entries of the second follow those of the first, each raised
    by the vertex count of the first.  The name plays no part. *)
Theorem faces_append (fs1 fs2 : list Face) (n1 n2 n : option JSString) :
  exists g1 g2 g,
    createMeshFromObject (js_of_Object3D {| faces := fs1; name := n1 |}) = Return g1
    /\ createMeshFromObject (js_of_Object3D {| faces := fs2; name := n2 |}) = Return g2
    /\ createMeshFromObject (js_of_Object3D {| faces := fs1 ++ fs2; name := n |}) = Return g
    /\ position (geometry g) = position (geometry g1) ++ position (geometry g2)
    /\ g_normal (geometry g) = g_normal (geometry g1) ++ g_normal (geometry g2)
    /\ index (geometry g) =
       index (geometry g1) ++ map (fun k => vertexCount g1 + k) (index (geometry g2)).
Proof.
  do 3 eexists. split; [apply createMeshFromObject_lists|].
  split; [apply createMeshFromObject_lists|].
  split; [apply createMeshFromObject_lists|].
  unfold vertexCount, groupOf. cbn [geometry position g_normal index faces].
  unfold positionsOf, normalsOf. rewrite filter_app, !flat_map_app.
  split; [reflexivity|]. split; [reflexivity|].
  rewrite indicesFrom_app. f_equal.
  fold (positionsOf fs1). rewrite length_positionsOf.
  rewrite (Nat.mul_comm 3), Nat.div_mul by discriminate.
  rewrite <- indicesFrom_shift. f_equal. lia.
Qed.

Lemma buildBuffers_no_faces (object : JSValue) :
  (forall l, Get object (js "faces") <> Return (JArr l)) ->
  buildBuffers object = Throw TypeError.
Proof.
  intro H. unfold buildBuffers.
  destruct (Get object (js "faces")) as [fs|e] eqn:E.
  - destruct fs; try reflexivity. exfalso. apply (H elems). reflexivity.
  - destruct object; cbn in E; try discriminate E; injection E as <-; reflexivity.
Qed.

(** X5. An object whose [faces] is missing or is not an array makes the
    builder throw a [TypeError]. *)
Theorem faces_not_an_array (object : JSValue) :
  (forall l, Get object (js "faces") <> Return (JArr l)) ->
  createMeshFromObject object = Throw TypeError.
Proof.
  intro H. unfold createMeshFromObject.
  rewrite (buildBuffers_no_faces object H). reflexivity.
Qed.

(** An object without members, a number, and [null]. *)
Lemma faces_not_an_array_witness :
  createMeshFromObject (JObj []) = Throw TypeError
  /\ createMeshFromObject (JNum 1) = Throw TypeError
  /\ createMeshFromObject JNull = Throw TypeError.
Proof.
  split; [|split].
  - apply (faces_not_an_array (JObj [])). intros l H. discriminate H.
  - apply (faces_not_an_array (JNum 1)). intros l H. discriminate H.
  - apply (faces_not_an_array JNull). intros l H. discriminate H.
Defined.

Lemma createMeshFromObject_buffers (object : JSValue) (g : Group) :
  createMeshFromObject object = Return g ->
  exists b, buildBuffers object = Return b
            /\ position (geometry g) = b_vertices b
            /\ g_normal (geometry g) = b_normals b
            /\ index (geometry g) = b_indices b.
Proof.
  unfold createMeshFromObject, Float32BufferAttribute.
  destruct (buildBuffers object) as [b|e]; [|discriminate].
  destruct (existsb toPrimitive_throws (b_vertices b)); [discriminate|].
  destruct (existsb toPrimitive_throws (b_normals b)); [discriminate|].
  destruct (colorSeed object); [|discriminate].
  intro H. injection H as <-. exists b. auto.
Qed.

(** X6. Whatever value the builder is given, well-typed or not, if it
    returns a group then the positions and the normals of that group have
    one length, three entries to a vertex, and every index entry is below
    the vertex count. *)
Theorem completed_build_consistent (object : JSValue) (g : Group) :
  createMeshFromObject object = Return g ->
  List.length (position (geometry g)) = List.length (g_normal (geometry g))
  /\ List.length (position (geometry g)) = 3 * vertexCount g
  /\ Forall (fun k => k < vertexCount g) (index (geometry g)).
Proof.
  intro H. destruct (createMeshFromObject_buffers object g H) as (b & Hb & Hp & Hn & Hi).
  destruct (buildBuffers_consistent object b Hb) as (Cv & Cn & Ci).
  unfold vertexCount. rewrite Hp, Hn, Hi, Cv, Cn.
  rewrite (Nat.mul_comm 3), Nat.div_mul by discriminate.
  repeat split; [lia|exact Ci].
Qed.

(** Three numbers in the place of vertices: nine undefined coordinates,
    three vertices, one triangle. *)
Lemma completed_build_consistent_witness :
  createMeshFromObject looseObject =
  Return {| geometry := {| position := repeat JUndefined 9;
                           g_normal := repeat JUndefined 9;
                           index := [0; 1; 2] |} |}
  /\ Forall (fun k => k < 3) [0; 1; 2].
Proof.
  split; [reflexivity|].
  apply (completed_build_consistent looseObject
           {| geometry := {| position := repeat JUndefined 9;
                             g_normal := repeat JUndefined 9;
                             index := [0; 1; 2] |} |}).
  reflexivity.
Defined.

(** X7. What the face callback does with a face that is not well-typed.
    Without [vertices] it throws.  With an array of [vertices] of any
    length but four and three it leaves the buffers alone and reads nothing
    else, so that the face may lack its normal.  With an array of four or
    three entries and no normal ([undefined] or [null]) it throws. *)
Theorem ill_typed_face (face : JSValue) (l : list JSValue) (b : Buffers) :
  (Get face (js "vertices") = Return JUndefined ->
   snd (faceCallback face b) = Throw TypeError)
  /\ (Get face (js "vertices") = Return (JArr l) ->
      List.length l <> 4 -> List.length l <> 3 ->
      faceCallback face b = (b, Return tt))
  /\ (Get face (js "vertices") = Return (JArr l) ->
      List.length l = 4 \/ List.length l = 3 ->
      Get face (js "normal") = Return JUndefined
      \/ Get face (js "normal") = Return JNull ->
      snd (faceCallback face b) = Throw TypeError).
Proof.
  split; [|split].
  - intro H. unfold faceCallback. run. rewrite H. reflexivity.
  - intros H H4 H3. unfold faceCallback. run. rewrite H. cbn [length_is].
    apply Nat.eqb_neq in H4, H3. rewrite H4, H3. reflexivity.
  - intros H Hl Hn.
    assert (Hv : forall v rest i b0,
               snd (forEach_from (fun vertex _ => vertexCallback face vertex) i (v :: rest) b0)
               = Throw TypeError).
    { intros v rest i b0. cbn [forEach_from]. unfold bind at 1.
      assert (E : snd (vertexCallback face v b0) = Throw TypeError).
      { unfold vertexCallback. run.
        destruct (Get v (js "x")) as [vx|e] eqn:Ex;
          [|destruct v; cbn in Ex; try discriminate Ex; injection Ex as <-; reflexivity].
        destruct (Get v (js "y")) as [vy|e] eqn:Ey;
          [|destruct v; cbn in Ey; try discriminate Ey; injection Ey as <-; reflexivity].
        destruct (Get v (js "z")) as [vz|e] eqn:Ez;
          [|destruct v; cbn in Ez; try discriminate Ez; injection Ez as <-; reflexivity].
        destruct Hn as [Hn|Hn]; rewrite Hn; reflexivity. }
      destruct (vertexCallback face v b0) as [b1 [u|e]]; cbn [snd] in E;
        [discriminate E|]. cbn [snd]. exact E. }
    unfold faceCallback. run. rewrite H. cbn [length_is forEach].
    destruct l as [|v rest]; [cbn in Hl; lia|].
    destruct Hl as [Hl|Hl]; rewrite Hl; cbn [Nat.eqb].
    + specialize (Hv v rest 0 b).
      destruct (forEach_from _ 0 (v :: rest) b) as [b1 [u|e]]; cbn [snd] in Hv;
        [discriminate Hv|]. cbn [snd]. exact Hv.
    + specialize (Hv v rest 0 b).
      destruct (forEach_from _ 0 (v :: rest) b) as [b1 [u|e]]; cbn [snd] in Hv;
        [discriminate Hv|]. cbn [snd]. exact Hv.
Qed.

(** A face of two vertices and a face of three, neither with a normal. *)
Lemma ill_typed_face_witness :
  faceCallback (bareFace [js_of_Vertex (point 0 0 0); js_of_Vertex (point 1 0 0)])
               emptyBuffers = (emptyBuffers, Return tt)
  /\ snd (faceCallback (bareFace [js_of_Vertex (point 0 0 0); js_of_Vertex (point 1 0 0);
                                  js_of_Vertex (point 1 1 0)]) emptyBuffers)
     = Throw TypeError
  /\ snd (faceCallback (JObj []) emptyBuffers) = Throw TypeError.
Proof.
  split; [|split].
  - apply (proj1 (proj2 (ill_typed_face _ [js_of_Vertex (point 0 0 0);
                                           js_of_Vertex (point 1 0 0)] emptyBuffers)));
      [reflexivity|cbn; lia|cbn; lia].
  - apply (proj2 (proj2 (ill_typed_face _ [js_of_Vertex (point 0 0 0);
                                           js_of_Vertex (point 1 0 0);
                                           js_of_Vertex (point 1 1 0)] emptyBuffers)));
      [reflexivity|right; reflexivity|left; reflexivity].
  - apply (proj1 (ill_typed_face (JObj []) [] emptyBuffers)). reflexivity.
Defined.

End MeshFacts.

(** ** Further properties of the load operation *)

Section SubmitFacts.
Import Geometry Mesh JSON Load Texts.

(** Once the text has parsed, the outcome does not depend on the scene the
    load starts from. *)
Lemma tryBlock_forgets (text : JSString) (data : JSValue) (s1 s2 : Scene) :
  JSON_parse text = Return data -> tryBlock text s1 = tryBlock text s2.
Proof.
  intro H. rewrite (tryBlock_parsed text data s1 H), (tryBlock_parsed text data s2 H).
  reflexivity.
Qed.

Lemma tryBlock_again (text : JSString) (scene : Scene) :
  tryBlock text (fst (tryBlock text scene)) = tryBlock text scene.
Proof.
  destruct (JSON_parse text) as [data|e] eqn:E.
  - apply (tryBlock_forgets text data _ _ E).
  - pose proof (JSON_parse_throws text e E) as ->.
    rewrite !(tryBlock_syntax_error text _ E). reflexivity.
Qed.

(** X8. Submitting a text twice in a row leaves the viewer as submitting
    it once does, whatever the text and whatever the viewer: a valid text
    shows its objects once, not twice, and a failing text fails the same
    way. *)
Theorem submit_idempotent (text : JSString) (v : Viewer) :
  submit text (submit text v) = submit text v.
Proof.
  destruct (sceneRef v) as [scene|] eqn:Hs.
  - rewrite (submit_unfold text v scene Hs).
    match goal with
    | |- submit text ?w = _ =>
        rewrite (submit_unfold text w (fst (tryBlock text scene)) eq_refl)
    end.
    unfold fails. rewrite tryBlock_again. reflexivity.
  - assert (E : forall w, sceneRef w = None -> submit text w = setJsonInput text w).
    { intros w Hw. unfold submit, handleJsonSubmit. cbn [setJsonInput sceneRef].
      rewrite Hw. reflexivity. }
    rewrite (E v Hs). rewrite (E (setJsonInput text v) Hs). reflexivity.
Qed.

(** X9. Through any session (mount, then edits of the text and clicks on
    the button in any order) the scene exists and is either the mounted
    scene, the grid alone, or the ambient light, the directional light and
    the grid followed by render groups and nothing else; the error slot is
    empty or holds the static message.  Lights and grids never pile up. *)
Theorem reachable_scene_shape (v : Viewer) :
  reachable v ->
  exists scene,
    sceneRef v = Some scene
    /\ (scene = mountedScene \/ exists gs, scene = fixtures ++ map MeshGroup gs)
    /\ (error v = [] \/ error v = errorMessage).
Proof.
  induction 1 as [|text v _ (scene & Hs & Hshape & He)|v _ (scene & Hs & Hshape & He)].
  - exists mountedScene. split; [reflexivity|]. split; [left; reflexivity|left; reflexivity].
  - exists scene. cbn [setJsonInput sceneRef error]. auto.
  - unfold handleJsonSubmit. rewrite Hs.
    assert (Hk : exists scene' c, tryBlock (jsonInput v) scene = (scene', c)
                 /\ (scene' = mountedScene
                     \/ exists gs, scene' = fixtures ++ map MeshGroup gs)).
    { destruct (JSON_parse (jsonInput v)) as [data|e] eqn:E.
      - destruct (tryBlock_parsed_shape _ data scene E) as (gs & c & Ht).
        exists (fixtures ++ map MeshGroup gs), c. split; [exact Ht|].
        right. exists gs. reflexivity.
      - pose proof (JSON_parse_throws _ e E) as ->.
        exists scene, (Throw SyntaxError).
        split; [apply tryBlock_syntax_error; exact E|exact Hshape]. }
    destruct Hk as (scene' & c & Ht & Hshape'). rewrite Ht.
    destruct c as [u|e]; exists scene'; cbn [sceneRef error]; auto.
Qed.

(** The viewer that shows the unit square. *)
Lemma reachable_scene_shape_witness :
  reachable (submit squareSceneText mountedViewer)
  /\ exists scene,
       sceneRef (submit squareSceneText mountedViewer) = Some scene
       /\ (scene = mountedScene \/ exists gs, scene = fixtures ++ map MeshGroup gs)
       /\ (error (submit squareSceneText mountedViewer) = []
           \/ error (submit squareSceneText mountedViewer) = errorMessage).
Proof.
  assert (H : reachable (submit squareSceneText mountedViewer)).
  { apply reach_submit, reach_input, reach_mount. }
  split; [exact H|]. apply (reachable_scene_shape _ H).
Defined.

Lemma withName_typed (o : Object3D) (i : nat) :
  exists object nm,
    withName (js_of_Object3D o) i = Return object
    /\ Get object (js "faces") = Return (JArr (map js_of_Face (faces o)))
    /\ Get object (js "name") = Return nm
    /\ toPrimitive_throws nm = false.
Proof. destruct o as [fs [[|c s']|]]; do 2 eexists; repeat split; reflexivity. Qed.

Lemma objectCallback_lists (o : Object3D) (i : nat) (s : Scene) :
  objectCallback (js_of_Object3D o) i s = (s ++ [MeshGroup (groupOf o)], Return tt).
Proof.
  destruct (withName_typed o i) as (object & nm & Hw & Hf & Hn & Hp).
  destruct (createMeshFromObject_typed object nm (faces o) Hf Hn Hp)
    as (b & Hb & Hm & _).
  rewrite (buildBuffers_lists object (faces o) Hf) in Hb. injection Hb as <-.
  unfold objectCallback, bind, lift, add, modify. rewrite Hw, Hm. reflexivity.
Qed.

Lemma objects_loop_lists (os : list Object3D) (i : nat) (s : Scene) :
  forEach_from objectCallback i (map js_of_Object3D os) s
  = (s ++ map MeshGroup (map groupOf os), Return tt).
Proof.
  revert i s. induction os as [|o os IH]; intros i s.
  - cbn. rewrite app_nil_r. reflexivity.
  - cbn [map forEach_from]. unfold bind at 1.
    rewrite objectCallback_lists, IH, <- app_assoc. reflexivity.
Qed.

(** X10. Every text that parses to a well-typed scene description loads:
    the error slot is emptied and the scene holds the two lights, the grid
    and one render group per object, in the order of the input, each with
    the geometry the builder gives that object.  Faces the builder skips and
    objects without faces do not make the load fail. *)
Theorem well_typed_scene_loads (d : SceneData) (text : JSString) (v : Viewer) (scene : Scene) :
  sceneRef v = Some scene ->
  JSON_parse text = Return (js_of_SceneData d) ->
  submit text v =
  {| sceneRef := Some (fixtures ++ map MeshGroup (map groupOf (objects d)));
     jsonInput := text;
     error := [] |}.
Proof.
  intros Hs Hp.
  assert (Ht : tryBlock text scene
               = (fixtures ++ map MeshGroup (map groupOf (objects d)), Return tt)).
  { rewrite (tryBlock_parsed text _ scene Hp). cbn [js_of_SceneData Get own].
    change (str_eqb (js "objects") (js "objects")) with true. cbn [forEach].
    apply objects_loop_lists. }
  rewrite (submit_unfold text v scene Hs). unfold fails. rewrite Ht. reflexivity.
Qed.

(** The unit square. *)
Lemma well_typed_scene_loads_witness :
  submit squareSceneText mountedViewer =
  {| sceneRef := Some (fixtures ++ map MeshGroup (map groupOf (objects squareScene)));
     jsonInput := squareSceneText;
     error := [] |}.
Proof.
  apply (well_typed_scene_loads squareScene squareSceneText mountedViewer mountedScene);
    reflexivity.
Defined.

Lemma Get_throws (v : JSValue) (k : JSString) (e : JSError) :
  Get v k = Throw e -> e = TypeError.
Proof. destruct v; cbn; congruence. Qed.

(** X11. A text that is well-formed JSON but whose value has no array
    under [objects] (the member is missing or holds something else, or the
    value is not an object at all) fails after the scene has been rebuilt:
    the error message is set and the scene holds the two lights and the
    grid, whatever it held before. *)
Theorem objects_not_an_array
        (text : JSString) (data : JSValue) (v : Viewer) (scene : Scene) :
  sceneRef v = Some scene ->
  JSON_parse text = Return data ->
  (forall l, Get data (js "objects") <> Return (JArr l)) ->
  submit text v =
  {| sceneRef := Some fixtures; jsonInput := text; error := errorMessage |}.
Proof.
  intros Hs Hp Hn.
  assert (Ht : exists e, tryBlock text scene = (fixtures, Throw e)).
  { rewrite (tryBlock_parsed text data scene Hp).
    destruct (Get data (js "objects")) as [objs|e] eqn:E.
    - destruct objs; try (exists TypeError; reflexivity).
      exfalso. apply (Hn elems). reflexivity.
    - exists e. reflexivity. }
  destruct Ht as (e & Ht).
  rewrite (submit_unfold text v scene Hs). unfold fails. rewrite Ht. reflexivity.
Qed.

(** The text [[1, 2]] over the viewer that shows the unit square. *)
Lemma objects_not_an_array_witness :
  submit arrayText (submit squareSceneText mountedViewer) =
  {| sceneRef := Some fixtures; jsonInput := arrayText; error := errorMessage |}.
Proof.
  apply (objects_not_an_array arrayText (JArr [JNum 1; JNum 2])
           (submit squareSceneText mountedViewer)
           (fixtures ++ map MeshGroup (map groupOf (objects squareScene)))).
  - reflexivity.
  - reflexivity.
  - intros l H. discriminate H.
Defined.

Lemma own_app_other (k k' : JSString) (w : JSValue) (props : list (JSString * JSValue)) :
  str_eqb k k' = false -> own k (props ++ [(k', w)]) = own k props.
Proof.
  intro H. induction props as [|[k0 v0] props IH].
  - cbn. rewrite H. reflexivity.
  - cbn [app own]. rewrite IH. reflexivity.
Qed.

Lemma faces_not_index (u : Decimal.uint) :
  str_eqb (js "faces") (js (NilEmpty.string_of_uint u)) = false.
Proof. destruct u; reflexivity. Qed.

Lemma own_indexed_faces {A : Type} (h : A -> JSValue) (l : list A) (n : nat) :
  own (js "faces") (indexed h n l) = None.
Proof.
  revert n. induction l as [|a l IH]; intro n; cbn [indexed own]; [reflexivity|].
  rewrite IH. unfold index_key. rewrite faces_not_index. reflexivity.
Qed.

(** An element that is [null], or has no array under [faces], stops the
    object loop. *)
Lemma objectCallback_no_faces (bad : JSValue) (i : nat) (s : Scene) :
  (forall l, Get bad (js "faces") <> Return (JArr l)) ->
  objectCallback bad i s = (s, Throw TypeError).
Proof.
  intro H. unfold objectCallback, bind, lift, withName.
  destruct (Get bad (js "name")) as [nm|e] eqn:En.
  - unfold createMeshFromObject. rewrite buildBuffers_no_faces; [reflexivity|].
    intros l. cbn [Get]. rewrite own_app_other by reflexivity.
    destruct bad; cbn [ownProperties]; try discriminate En.
    + cbn. discriminate.
    + cbn. discriminate.
    + rewrite own_indexed_faces. discriminate.
    + rewrite own_indexed_faces. discriminate.
    + apply (H l).
  - rewrite (Get_throws _ _ _ En). reflexivity.
Qed.

(** X12. The load has no rollback.  When the [objects] array holds
    well-typed objects and then an element that is [null] or has no array
    under [faces], the load fails with the error message, the scene holds
    the two lights, the grid and the groups of the objects before that
    element, and what follows the element is never built. *)
Theorem load_stops_at_first_failure
        (text : JSString) (data bad : JSValue) (os : list Object3D) (rest : list JSValue)
        (v : Viewer) (scene : Scene) :
  sceneRef v = Some scene ->
  JSON_parse text = Return data ->
  Get data (js "objects") = Return (JArr (map js_of_Object3D os ++ bad :: rest)) ->
  (forall l, Get bad (js "faces") <> Return (JArr l)) ->
  submit text v =
  {| sceneRef := Some (fixtures ++ map MeshGroup (map groupOf os));
     jsonInput := text;
     error := errorMessage |}.
Proof.
  intros Hs Hp Ho Hb.
  assert (Hl : forall l i s,
             forEach_from objectCallback i (map js_of_Object3D l ++ bad :: rest) s
             = (s ++ map MeshGroup (map groupOf l), Throw TypeError)).
  { induction l as [|o l IH]; intros i s.
    - cbn [map app forEach_from]. unfold bind at 1.
      rewrite (objectCallback_no_faces bad i s Hb), app_nil_r. reflexivity.
    - cbn [map app forEach_from]. unfold bind at 1.
      rewrite objectCallback_lists, IH, <- app_assoc. reflexivity. }
  rewrite (submit_unfold text v scene Hs). unfold fails.
  rewrite (tryBlock_parsed text data scene Hp), Ho. cbn [forEach]. rewrite Hl.
  reflexivity.
Qed.

(** The unit square, then [null], then an empty object: the square is
    shown, the error is reported. *)
Lemma load_stops_at_first_failure_witness :
  submit squareThenNullText mountedViewer =
  {| sceneRef := Some (fixtures ++ map MeshGroup (map groupOf (objects squareScene)));
     jsonInput := squareThenNullText;
     error := errorMessage |}.
Proof.
  apply (load_stops_at_first_failure squareThenNullText
           (JObj [(js "objects",
                   JArr (map js_of_Object3D (objects squareScene) ++ [JNull; JObj []]))])
           JNull (objects squareScene) [JObj []] mountedViewer mountedScene).
  - reflexivity.
  - reflexivity.
  - reflexivity.
  - intros l H. discriminate H.
Defined.

Lemma skip_ws_blank (text : JSString) :
  forallb is_ws text = true -> skip_ws text = [].
Proof.
  induction text as [|c text IH]; [reflexivity|].
  cbn [forallb skip_ws]. intro H. apply andb_prop in H. destruct H as [Hc Ht].
  rewrite Hc. apply IH, Ht.
Qed.

Lemma JSON_parse_blank (text : JSString) :
  forallb is_ws text = true -> JSON_parse text = Throw SyntaxError.
Proof.
  intro H. unfold JSON_parse.
  replace (2 * List.length text + 2) with (S (2 * List.length text + 1)) by lia.
  cbn [parse_value]. rewrite (skip_ws_blank text H). reflexivity.
Qed.

(** X13. A text that is empty or holds only white space (spaces, tabs,
    line feeds, carriage returns) is rejected: the error message is set and
    the scene is left as it was.  Clicking the button on the empty text area
    of a freshly mounted viewer reports the error. *)
Theorem blank_text_rejected (text : JSString) (v : Viewer) (scene : Scene) :
  sceneRef v = Some scene ->
  forallb is_ws text = true ->
  submit text v = {| sceneRef := Some scene; jsonInput := text; error := errorMessage |}.
Proof.
  intros Hs Hb. rewrite (submit_unfold text v scene Hs). unfold fails.
  rewrite (tryBlock_syntax_error text scene (JSON_parse_blank text Hb)). reflexivity.
Qed.

(** The empty text area of the mounted viewer, and a text of a space, a
    line feed and a tab. *)
Lemma blank_text_rejected_witness :
  handleJsonSubmit mountedViewer =
  {| sceneRef := Some mountedScene; jsonInput := []; error := errorMessage |}
  /\ submit blankText mountedViewer =
     {| sceneRef := Some mountedScene; jsonInput := blankText; error := errorMessage |}.
Proof.
  split.
  - apply (blank_text_rejected [] mountedViewer mountedScene); reflexivity.
  - apply (blank_text_rejected blankText mountedViewer mountedScene); reflexivity.
Defined.

End SubmitFacts.

(** ** Further properties of the orbit camera *)

Section OrbitFacts.
Import Camera.
Local Open Scope R_scope.

Lemma idle_move (e : MouseEvent) (c : Controls) :
  isMouseDown (mouseControlsRef c) = false -> handleMouseMove e c = c.
Proof. intro H. unfold handleMouseMove. rewrite H. reflexivity. Qed.

(** X14. While no button is down (before the first mouse-down, after a
    mouse-up or after the cursor has left the viewport) mouse moves change
    neither the camera nor the gesture state, however many there are. *)
Theorem moves_without_button_do_nothing (moves : list MouseEvent) (c : Controls) :
  isMouseDown (mouseControlsRef c) = false ->
  fold_left (fun c e => handleMouseMove e c) moves c = c.
Proof.
  intro H. induction moves as [|e moves IH]; [reflexivity|].
  cbn [fold_left]. rewrite (idle_move e c H). exact IH.
Qed.

(** Moves after the release of a drag, and moves over the freshly mounted
    viewer. *)
Lemma moves_without_button_do_nothing_witness :
  fold_left (fun c e => handleMouseMove e c)
            [{| clientX := 30; clientY := 40 |}; {| clientX := 50; clientY := 60 |}]
            (handleMouseUp (drag {| clientX := 0; clientY := 0 |}
                                 [{| clientX := 10; clientY := 20 |}] initialControls))
  = handleMouseUp (drag {| clientX := 0; clientY := 0 |}
                        [{| clientX := 10; clientY := 20 |}] initialControls)
  /\ fold_left (fun c e => handleMouseMove e c)
               [{| clientX := 30; clientY := 40 |}] initialControls = initialControls.
Proof.
  split.
  - apply (moves_without_button_do_nothing
             [{| clientX := 30; clientY := 40 |}; {| clientX := 50; clientY := 60 |}]).
    reflexivity.
  - apply (moves_without_button_do_nothing [{| clientX := 30; clientY := 40 |}]).
    reflexivity.
Defined.

(** X15. A drag whose moves all keep the column of the mouse-down rotates
    the camera about the x axis by one hundredth of a radian per pixel
    between the row of the mouse-down and the row of the last move, however
    the cursor went up and down in between; the camera keeps its [x] and
    its distance from the origin. *)
Theorem vertical_drag_is_tilt
        (c : Controls) (p : Vector3) (start : MouseEvent) (moves : list MouseEvent) :
  cameraRef c = Some p ->
  Forall (fun e => clientX e = clientX start) moves ->
  exists p',
    cameraRef (drag start moves c) = Some p'
    /\ p' = tilt ((clientY (last moves start) - clientY start) * rotationSpeed) p
    /\ x p' = x p
    /\ length p' = length p.
Proof.
  intros Hc Hx. eexists. split; [|split; [reflexivity|split]].
  - unfold drag.
    rewrite (vertical_moves p (clientX start) (clientY start) moves
               (handleMouseDown start c));
      cbn [handleMouseDown mouseControlsRef cameraRef isMouseDown lastX lastY]; auto.
    + destruct start as [sx sy]; reflexivity.
    + replace ((clientY start - clientY start) * rotationSpeed) with 0 by ring.
      rewrite tilt_0. exact Hc.
  - reflexivity.
  - apply length_tilt.
Qed.

(** The mounted camera dragged 40 pixels down and 10 back up. *)
Lemma vertical_drag_is_tilt_witness :
  exists p',
    cameraRef (drag {| clientX := 10; clientY := 20 |}
                    [{| clientX := 10; clientY := 60 |}; {| clientX := 10; clientY := 50 |}]
                    initialControls) = Some p'
    /\ p' = tilt ((50 - 20) * rotationSpeed) {| x := 0; y := 0; z := 5 |}
    /\ x p' = 0
    /\ length p' = length {| x := 0; y := 0; z := 5 |}.
Proof.
  apply (vertical_drag_is_tilt initialControls {| x := 0; y := 0; z := 5 |}
           {| clientX := 10; clientY := 20 |}
           [{| clientX := 10; clientY := 60 |}; {| clientX := 10; clientY := 50 |}]).
  - reflexivity.
  - repeat constructor.
Defined.

(** X16. A mouse move is the horizontal update followed by a rotation
    about the x axis by the angle of the vertical delta.  The horizontal
    update leaves the height [y] of the camera alone and sends [(x, z)] to
    [(x', x' sin a + z cos a)] with [x' = x cos a - z sin a]; the rotation
    keeps the distance from the origin, so the distance after a move is
    the distance after its horizontal part. *)
Theorem move_decomposes (deltaX deltaY : R) (p : Vector3) :
  let a := deltaX * rotationSpeed in
  let x' := x p * cos a - z p * sin a in
  orbit deltaX 0 p = {| x := x'; y := y p; z := x' * sin a + z p * cos a |}
  /\ orbit deltaX deltaY p = tilt (deltaY * rotationSpeed) (orbit deltaX 0 p)
  /\ length (orbit deltaX deltaY p) = length (orbit deltaX 0 p).
Proof.
  cbv zeta.
  assert (H0 : orbit deltaX 0 p =
               {| x := x p * cos (deltaX * rotationSpeed) - z p * sin (deltaX * rotationSpeed);
                  y := y p;
                  z := (x p * cos (deltaX * rotationSpeed) - z p * sin (deltaX * rotationSpeed))
                       * sin (deltaX * rotationSpeed)
                       + z p * cos (deltaX * rotationSpeed) |}).
  { rewrite orbit_unfold. cbv zeta.
    replace (0 * rotationSpeed) with 0 by ring. rewrite cos_0, sin_0.
    f_equal; ring. }
  assert (H1 : orbit deltaX deltaY p = tilt (deltaY * rotationSpeed) (orbit deltaX 0 p)).
  { rewrite H0. rewrite orbit_unfold. cbv zeta. unfold tilt. cbn [x y z]. reflexivity. }
  split; [exact H0|]. split; [exact H1|].
  rewrite H1. apply length_tilt.
Qed.

End OrbitFacts.

(** ** The wheel handler in binary64 *)

Section Wheel64Facts.
Import Camera64 Wheel64.
Local Open Scope float_scope.
Set Warnings "-inexact-float".

Lemma wheels_add (a b : nat) (d : float) (p : Vector3) :
  wheels (a + b) d p = wheels b d (wheels a d p).
Proof.
  revert p. induction a as [|a IH]; intro p; [reflexivity|].
  cbn [Nat.add wheels]. apply IH.
Qed.

Lemma wheels_fixed (n : nat) (d : float) (p : Vector3) :
  zoom d p = p -> wheels n d p = p.
Proof.
  intro H. induction n as [|n IH]; [reflexivity|].
  cbn [wheels]. rewrite H. exact IH.
Qed.

Lemma run_within_sound (n : nat) (d : float) (p : Vector3) :
  run_within n d p = true ->
  forall k, (k <= n)%nat -> within_bounds (wheels k d p) = true.
Proof.
  revert p. induction n as [|n IH]; intros p H k Hk.
  - assert (k = 0%nat) by lia. subst k. cbn in H |- *.
    apply andb_prop in H. apply H.
  - cbn [run_within] in H. apply andb_prop in H. destruct H as [H0 H1].
    destruct k as [|k]; [exact H0|].
    cbn [wheels]. apply (IH _ H1). lia.
Qed.

(** X20. In binary64, from the mounted camera at [(0, 0, 5)], a run of
    any number of wheel events of one direction keeps the distance between
    0.1 and 100: zooming out, the camera reaches [(0, 0, 100)] at the 32nd
    event and stays there; zooming in, it reaches [(0, 0, 0.1)] at the 42nd
    and stays there. *)
Theorem mounted_wheel_run_binary64 (n : nat) :
  within_bounds (wheels n 1 mounted) = true
  /\ within_bounds (wheels n (-1) mounted) = true
  /\ ((32 <= n)%nat -> wheels n 1 mounted = {| x := 0; y := 0; z := 100 |})
  /\ ((42 <= n)%nat -> wheels n (-1) mounted = {| x := 0; y := 0; z := 0.1 |}).
Proof.
  assert (Hout : forall k, wheels (32 + k) 1 mounted = {| x := 0; y := 0; z := 100 |}).
  { intro k. rewrite wheels_add.
    replace (wheels 32 1 mounted) with {| x := 0; y := 0; z := 100 |}
      by (vm_compute; reflexivity).
    apply wheels_fixed. vm_compute. reflexivity. }
  assert (Hin : forall k, wheels (42 + k) (-1) mounted = {| x := 0; y := 0; z := 0.1 |}).
  { intro k. rewrite wheels_add.
    replace (wheels 42 (-1) mounted) with {| x := 0; y := 0; z := 0.1 |}
      by (vm_compute; reflexivity).
    apply wheels_fixed. vm_compute. reflexivity. }
  split; [|split; [|split]].
  - destruct (Nat.le_gt_cases 32 n) as [H|H].
    + replace n with (32 + (n - 32))%nat by lia. rewrite Hout. vm_compute. reflexivity.
    + apply (run_within_sound 32 1 mounted); [vm_compute; reflexivity|lia].
  - destruct (Nat.le_gt_cases 42 n) as [H|H].
    + replace n with (42 + (n - 42))%nat by lia. rewrite Hin. vm_compute. reflexivity.
    + apply (run_within_sound 42 (-1) mounted); [vm_compute; reflexivity|lia].
  - intro H. replace n with (32 + (n - 32))%nat by lia. apply Hout.
  - intro H. replace n with (42 + (n - 42))%nat by lia. apply Hin.
Qed.

(** Forty events out, fifty events in. *)
Lemma mounted_wheel_run_binary64_witness :
  wheels 40 1 mounted = {| x := 0; y := 0; z := 100 |}
  /\ wheels 50 (-1) mounted = {| x := 0; y := 0; z := 0.1 |}.
Proof.
  split.
  - apply (mounted_wheel_run_binary64 40). repeat constructor.
  - apply (mounted_wheel_run_binary64 50). repeat constructor.
Defined.

(** X21. In binary64 the clamp of the wheel handler does not bound the
    distance the camera ends at: renormalising and rescaling the position
    rounds three more times.  From [(0, 1, 97)], within the bounds, one
    zoom out ends at a distance above 100; from [(0, 0.04, 0.1)], within the
    bounds, one zoom in ends at a distance below 0.1. *)
Theorem binary64_clamp_leaks :
  (exists p, within_bounds p = true /\ (100 <? length (zoom 1 p)) = true)
  /\ (exists p, within_bounds p = true /\ (length (zoom (-1) p) <? 0.1) = true).
Proof.
  split.
  - exists {| x := 0; y := 1; z := 97 |}. vm_compute. auto.
  - exists {| x := 0; y := 0.04; z := 0.1 |}. vm_compute. auto.
Qed.

End Wheel64Facts.

(** ** Further properties of the colour generator *)

Section PaletteFacts.
Import Color Palette.
Local Open Scope Z_scope.

Lemma table_sound (n : nat) (i : Z) :
  table n i = true ->
  forall k, i <= k < i + Z.of_nat n ->
            in_range (generateColor (float_of_Z k)) = true
            /\ channels_differ (generateColor (float_of_Z k))
                               (generateColor (float_of_Z (k + 30000))) = false.
Proof.
  revert i. induction n as [|n IH]; intros i H k Hk; [lia|].
  cbn [table] in H. apply andb_prop in H. destruct H as [H H2].
  apply andb_prop in H. destruct H as [H0 H1].
  destruct (Z.eq_dec k i) as [->|Hne].
  - split; [exact H0|]. apply negb_true_iff. exact H1.
  - apply (IH (i + 1) H2). lia.
Qed.

Lemma exact_table_sound (n : nat) (i : Z) :
  exact_table n i = true ->
  forall k, i <= k < i + Z.of_nat n ->
            exact_in_range (ColorExact.generateColor k) = true.
Proof.
  revert i. induction n as [|n IH]; intros i H k Hk; [lia|].
  assert (E : exact_table (S n) i
              = exact_in_range (ColorExact.generateColor i) && exact_table n (i + 1))
    by reflexivity.
  rewrite E in H. apply andb_prop in H. destruct H as [H0 H1].
  destruct (Z.eq_dec k i) as [Hk'|Hne]; [rewrite Hk'; exact H0|].
  apply (IH (i + 1) H1). lia.
Qed.

Lemma binary64_table :
  forall k, 0 <= k < 30000 ->
            in_range (generateColor (float_of_Z k)) = true
            /\ channels_differ (generateColor (float_of_Z k))
                               (generateColor (float_of_Z (k + 30000))) = false.
Proof.
  intros k Hk. apply (table_sound (Z.to_nat 30000) 0).
  - vm_compute. reflexivity.
  - rewrite Z2Nat.id; lia.
Qed.

Lemma exact_range_table :
  forall k, 0 <= k < 30000 -> exact_in_range (ColorExact.generateColor k) = true.
Proof.
  intros k Hk. apply (exact_table_sound (Z.to_nat 30000) 0).
  - vm_compute. reflexivity.
  - rewrite Z2Nat.id; lia.
Qed.

(** X22. For every index that is a non-negative integer the three
    channels lie between 82/255 and 224/255, one channel is 224/255 and one
    is 82/255: in exact arithmetic for all such indices, in binary64 for the
    indices below 30000.  A negative index can leave the range: at index -2
    the blue channel is -2/255. *)
Theorem colours_stay_in_range (i : Z) :
  0 <= i ->
  exact_in_range (ColorExact.generateColor i) = true
  /\ (i < 30000 -> in_range (generateColor (float_of_Z i)) = true)
  /\ ColorExact.b (ColorExact.generateColor (-2)) = (-2 # 255)%Q
  /\ PrimFloat.ltb (b (generateColor (float_of_Z (-2)))) 0 = true.
Proof.
  intro Hi. split; [|split; [|split]].
  - rewrite (exact_color_rem i). apply exact_range_table.
    rewrite Z.rem_mod_nonneg by lia. apply Z.mod_pos_bound. lia.
  - intro Hlt. apply binary64_table. lia.
  - vm_compute. reflexivity.
  - vm_compute. reflexivity.
Qed.

(** Index 7. *)
Lemma colours_stay_in_range_witness :
  0 <= 7
  /\ exact_in_range (ColorExact.generateColor 7) = true
  /\ in_range (generateColor (float_of_Z 7)) = true.
Proof.
  assert (H : 0 <= 7) by lia.
  destruct (colours_stay_in_range 7 H) as (H1 & H2 & _).
  split; [exact H|]. split; [exact H1|]. apply H2. lia.
Defined.

(** X23. The colours come back every 30000 indices: 30000 steps of
    137.508 degrees are 11459 full turns.  In exact arithmetic the colour of
    [i + 30000] is the colour of [i] for every non-negative integer [i]; in
    binary64 the two have the same channels for [i] below 30000. *)
Theorem colours_repeat (i : Z) :
  0 <= i ->
  ColorExact.generateColor (i + 30000) = ColorExact.generateColor i
  /\ (i < 30000 ->
      channels_differ (generateColor (float_of_Z i))
                      (generateColor (float_of_Z (i + 30000))) = false).
Proof.
  intro Hi. split.
  - rewrite (exact_color_rem (i + 30000)), (exact_color_rem i). f_equal.
    rewrite !Z.rem_mod_nonneg by lia.
    replace (i + 30000) with (i + 1 * 30000) by lia. apply Z.mod_add. lia.
  - intro Hlt. apply binary64_table. lia.
Qed.

(** Index 1 and index 30001. *)
Lemma colours_repeat_witness :
  ColorExact.generateColor (1 + 30000) = ColorExact.generateColor 1
  /\ channels_differ (generateColor (float_of_Z 1))
                     (generateColor (float_of_Z (1 + 30000))) = false.
Proof.
  assert (H : 0 <= 1) by lia.
  destruct (colours_repeat 1 H) as (H1 & H2).
  split; [exact H1|]. apply H2. lia.
Defined.

End PaletteFacts.

(** ** The face colour of loaded objects *)

Section TintFacts.
Import Load Color Tint.

(** X24. The load never colours an object at random.  The object the
    load hands to the builder always has a non-empty name, the name of the
    input object or, when that is missing or empty, [object] followed by the
    index; so the colour index is [parseInt] of that name in radix 36 and
    [Math.random] is not consulted. *)
Theorem load_never_uses_random (o : Object3D) (index : nat) (random : float) :
  exists object,
    withName (js_of_Object3D o) index = Return object
    /\ Get object (js "name") = Return (JStr (loadedName (name o) index))
    /\ truthy (JStr (loadedName (name o) index)) = true
    /\ colorIndex random (Some (loadedName (name o) index))
       = parseInt (loadedName (name o) index) 36.
Proof.
  destruct o as [fs [[|c s]|]]; eexists; repeat split.
Qed.

Lemma digit_is_plain (c : N) (d : Z) :
  digitValue 36 c = Some d ->
  is_space c = false /\ N.eqb c 45 = false /\ N.eqb c 43 = false.
Proof.
  unfold digitValue.
  assert (R : (48 <= c <= 122)%N -> is_space c = false /\ N.eqb c 45 = false
                                    /\ N.eqb c 43 = false).
  { intro H. unfold is_space.
    repeat match goal with
           | |- context [N.eqb ?a ?b] => destruct (N.eqb_spec a b); [lia|]
           end.
    destruct (N.leb_spec 8192 c); [lia|]. auto. }
  destruct (N.leb_spec 48 c); destruct (N.leb_spec c 57); cbn [andb]; try (intros _; apply R; lia).
  all: destruct (N.leb_spec 97 c); destruct (N.leb_spec c 122); cbn [andb];
    try (intros _; apply R; lia).
  all: destruct (N.leb_spec 65 c); destruct (N.leb_spec c 90); cbn [andb];
    try (intros _; apply R; lia).
  all: discriminate.
Qed.

Lemma parseInt_plain (c : N) (r : JSString) :
  is_space c = false -> N.eqb c 45 = false -> N.eqb c 43 = false ->
  parseInt (c :: r) 36 =
  match radixDigits 36 (c :: r) 0%Z 0%nat with
  | (_, O) => nan
  | (0%Z, _) => zero
  | (mathInt, _) => float_of_Z mathInt
  end.
Proof.
  intros Hs Hm Hp. unfold parseInt. cbn [trimStart]. rewrite Hs, Hm, Hp.
  reflexivity.
Qed.

Lemma radixDigits_stop (s t : JSString) (c : N) (acc : Z) (n : nat) :
  Forall (fun d => digitValue 36 d <> None) s ->
  digitValue 36 c = None ->
  radixDigits 36 (s ++ c :: t) acc n = radixDigits 36 s acc n.
Proof.
  intros Hs Hc. revert acc n. induction Hs as [|d s Hd Hs IH]; intros acc n.
  - cbn. rewrite Hc. reflexivity.
  - cbn [app radixDigits]. destruct (digitValue 36 d); [apply IH|contradiction].
Qed.

(** X25. The colour index reads the name only as far as its letters and
    digits go: when a name begins with a run of letters and digits and a
    character that is neither follows, whatever comes after that character
    is ignored.  Objects named [wall-left] and [wall-right] get the colour
    of [wall]. *)
Theorem name_tail_ignored (s t : JSString) (c : N) :
  s <> [] ->
  Forall (fun d => digitValue 36 d <> None) s ->
  digitValue 36 c = None ->
  parseInt (s ++ c :: t) 36 = parseInt s 36
  /\ generateColor (parseInt (s ++ c :: t) 36) = generateColor (parseInt s 36).
Proof.
  intros Hne Hs Hc.
  assert (E : parseInt (s ++ c :: t) 36 = parseInt s 36).
  { destruct s as [|d s]; [contradiction|].
    inversion Hs as [|d' s' Hd Hs']; subst.
    destruct (digitValue 36 d) as [v|] eqn:Ev; [|contradiction].
    destruct (digit_is_plain d v Ev) as (P1 & P2 & P3).
    change ((d :: s) ++ c :: t) with (d :: (s ++ c :: t)).
    rewrite !parseInt_plain by assumption.
    change (d :: s ++ c :: t) with ((d :: s) ++ c :: t).
    rewrite (radixDigits_stop (d :: s) t c) by assumption. reflexivity. }
  split; [exact E|]. rewrite E. reflexivity.
Qed.

(** The names [wall-left] and [wall-right]. *)
Lemma name_tail_ignored_witness :
  parseInt (js "wall-left") 36 = parseInt (js "wall") 36
  /\ parseInt (js "wall-right") 36 = parseInt (js "wall") 36.
Proof.
  assert (Hs : Forall (fun d => digitValue 36 d <> None) (js "wall"))
    by (repeat constructor; discriminate).
  assert (Hne : js "wall" <> []) by discriminate.
  split.
  - apply (name_tail_ignored (js "wall") (js "left") 45%N Hne Hs). reflexivity.
  - apply (name_tail_ignored (js "wall") (js "right") 45%N Hne Hs). reflexivity.
Defined.

(** X26. A name whose first character is not a letter, a digit, a sign
    or white space has no colour index: [parseInt] gives [NaN], every
    comparison in [hue2rgb] fails, and the object is drawn in the grey
    (82, 82, 82) / 255, whatever the rest of the name. *)
Theorem name_without_digits_is_grey (c : N) (t : JSString) :
  is_space c = false ->
  c <> 45%N -> c <> 43%N ->
  digitValue 36 c = None ->
  parseInt (c :: t) 36 = nan
  /\ generateColor (parseInt (c :: t) 36) = grey.
Proof.
  intros Hs Hm Hp Hd.
  assert (E : parseInt (c :: t) 36 = nan).
  { apply N.eqb_neq in Hm, Hp. rewrite (parseInt_plain c t Hs Hm Hp).
    cbn [radixDigits]. rewrite Hd. reflexivity. }
  split; [exact E|]. rewrite E. vm_compute. reflexivity.
Qed.

(** The names [_floor] and [#1]. *)
Lemma name_without_digits_is_grey_witness :
  generateColor (parseInt (js "_floor") 36) = grey
  /\ generateColor (parseInt (js "#1") 36) = grey.
Proof.
  split.
  - apply (name_without_digits_is_grey 95%N (js "floor")); try reflexivity; discriminate.
  - apply (name_without_digits_is_grey 35%N (js "1")); try reflexivity; discriminate.
Defined.

Lemma capital_cases (c : N) :
  ((97 <= c <= 122)%N /\ capital c = (c - 32)%N) \/ (~ (97 <= c <= 122)%N /\ capital c = c).
Proof.
  unfold capital.
  destruct (N.leb_spec 97 c); destruct (N.leb_spec c 122); cbn [andb];
    [left|right|right|right]; split; try reflexivity; lia.
Qed.

Lemma digitValue_capital (c : N) : digitValue 36 (capital c) = digitValue 36 c.
Proof.
  destruct (capital_cases c) as [[H E]|[H E]]; rewrite E; [|reflexivity].
  unfold digitValue.
  destruct (N.leb_spec 48 (c - 32)); destruct (N.leb_spec (c - 32) 57); cbn [andb];
    try lia.
  all: destruct (N.leb_spec 48 c); destruct (N.leb_spec c 57); cbn [andb]; try lia.
  all: destruct (N.leb_spec 97 (c - 32)); destruct (N.leb_spec (c - 32) 122); cbn [andb];
    try lia.
  all: destruct (N.leb_spec 97 c); destruct (N.leb_spec c 122); cbn [andb]; try lia.
  all: destruct (N.leb_spec 65 (c - 32)); destruct (N.leb_spec (c - 32) 90); cbn [andb];
    try lia.
  all: replace (c - 32 - 55)%N with (c - 87)%N by lia; reflexivity.
Qed.

Lemma is_space_capital (c : N) : is_space (capital c) = is_space c.
Proof.
  destruct (capital_cases c) as [[H E]|[H E]]; rewrite E; [|reflexivity].
  assert (R : forall d, (65 <= d <= 122)%N -> is_space d = false).
  { intros d Hd. unfold is_space.
    repeat match goal with
           | |- context [N.eqb ?a ?b] => destruct (N.eqb_spec a b); [lia|]
           end.
    destruct (N.leb_spec 8192 d); [lia|]. reflexivity. }
  rewrite !R by lia. reflexivity.
Qed.

Lemma eqb_capital (c k : N) : (k < 65)%N -> N.eqb (capital c) k = N.eqb c k.
Proof.
  intro Hk. destruct (capital_cases c) as [[H E]|[H E]]; rewrite E; [|reflexivity].
  destruct (N.eqb_spec (c - 32) k); destruct (N.eqb_spec c k); try reflexivity; lia.
Qed.

Lemma trimStart_capital (s : JSString) :
  trimStart (map capital s) = map capital (trimStart s).
Proof.
  induction s as [|c s IH]; [reflexivity|].
  cbn [map trimStart]. rewrite is_space_capital.
  destruct (is_space c); [exact IH|reflexivity].
Qed.

Lemma radixDigits_capital (s : JSString) (acc : Z) (n : nat) :
  radixDigits 36 (map capital s) acc n = radixDigits 36 s acc n.
Proof.
  revert acc n. induction s as [|c s IH]; intros acc n; [reflexivity|].
  cbn [map radixDigits]. rewrite digitValue_capital.
  destruct (digitValue 36 c); [apply IH|reflexivity].
Qed.

(** [parseInt] in radix 36, the radix checks done. *)
Lemma parseInt_36 (s : JSString) :
  parseInt s 36 =
  let finish (negative : bool) (t : JSString) :=
    match radixDigits 36 t 0%Z 0%nat with
    | (_, O) => nan
    | (0%Z, _) => if negative then neg_zero else zero
    | (mathInt, _) => float_of_Z (if negative then (- mathInt)%Z else mathInt)
    end in
  match trimStart s with
  | c :: r =>
      if N.eqb c 45 then finish true r
      else if N.eqb c 43 then finish false r
      else finish false (c :: r)
  | [] => finish false []
  end.
Proof.
  unfold parseInt. destruct (trimStart s) as [|c r]; [reflexivity|].
  destruct (N.eqb c 45); [reflexivity|]. destruct (N.eqb c 43); reflexivity.
Qed.

(** X27. The colour index does not tell capitals from small letters:
    turning the letters of a name into capitals changes neither
    [parseInt] of the name in radix 36 nor the colour.  Objects named
    [cube] and [Cube] get one colour. *)
Theorem name_case_ignored (s : JSString) :
  parseInt (map capital s) 36 = parseInt s 36
  /\ generateColor (parseInt (map capital s) 36) = generateColor (parseInt s 36).
Proof.
  assert (E : parseInt (map capital s) 36 = parseInt s 36).
  { rewrite !parseInt_36. cbv zeta. rewrite trimStart_capital.
    destruct (trimStart s) as [|c r]; [reflexivity|].
    cbn [map]. rewrite !eqb_capital by lia.
    destruct (N.eqb c 45); [rewrite radixDigits_capital; reflexivity|].
    destruct (N.eqb c 43); [rewrite radixDigits_capital; reflexivity|].
    change (capital c :: map capital r) with (map capital (c :: r)).
    rewrite radixDigits_capital. reflexivity. }
  split; [exact E|]. rewrite E. reflexivity.
Qed.

Lemma differs_from_all_sound (c : Color) (l : list Color) :
  differs_from_all c l = true ->
  forall j, (j < List.length l)%nat -> channels_differ c (nth j l c) = true.
Proof.
  unfold differs_from_all. induction l as [|c' l IH]; intros H j Hj; [cbn in Hj; lia|].
  cbn [forallb] in H. apply andb_prop in H. destruct H as [H0 H1].
  destruct j as [|j]; [exact H0|]. cbn [nth]. apply IH; [exact H1|cbn in Hj; lia].
Qed.

Lemma pairwise_differ_sound (l : list Color) (d : Color) :
  pairwise_differ l = true ->
  forall i j, (i < j)%nat -> (j < List.length l)%nat ->
              channels_differ (nth i l d) (nth j l d) = true.
Proof.
  induction l as [|c l IH]; intros H i j Hij Hj; [cbn in Hj; lia|].
  cbn [pairwise_differ] in H. apply andb_prop in H. destruct H as [H0 H1].
  destruct j as [|j]; [lia|]. cbn [List.length] in Hj.
  destruct i as [|i].
  - cbn [nth]. rewrite (nth_indep l d c) by lia.
    apply (differs_from_all_sound c l H0). lia.
  - cbn [nth]. apply IH; [exact H1|lia|lia].
Qed.

Lemma nth_map_seq {A : Type} (h : nat -> A) (n k : nat) (d : A) :
  (k < n)%nat -> nth k (map h (seq 0 n)) d = h k.
Proof.
  intro H. rewrite (nth_indep _ d (h 0%nat)) by (rewrite length_map, length_seq; exact H).
  rewrite map_nth, seq_nth by exact H. reflexivity.
Qed.

(** X28. Objects loaded without a name are coloured by their place in
    the input: the first seventy of them, at the indices 0 to 69, get
    colours that differ pairwise; the object at index 70 gets the colour of
    the object at index 9. *)
Theorem default_colours_first_seventy (i j : nat) :
  (i < j)%nat -> (j < 70)%nat ->
  channels_differ (defaultColor i) (defaultColor j) = true
  /\ channels_differ (defaultColor 9) (defaultColor 70) = false.
Proof.
  intros Hij Hj. split; [|vm_compute; reflexivity].
  assert (T : pairwise_differ (map defaultColor (seq 0 70)) = true)
    by (vm_compute; reflexivity).
  pose proof (pairwise_differ_sound _ (defaultColor 0) T i j Hij) as H.
  rewrite length_map, length_seq in H. specialize (H Hj).
  rewrite !nth_map_seq in H by lia. exact H.
Qed.

(** The first two unnamed objects. *)
Lemma default_colours_first_seventy_witness :
  channels_differ (defaultColor 0) (defaultColor 1) = true.
Proof.
  apply (default_colours_first_seventy 0 1); repeat constructor.
Defined.

End TintFacts.
(** ** Which submissions fail *)

Section ShapeFacts.
Import Geometry JSON Load Shape.

Lemma Get_readable (v : JSValue) (k : JSString) :
  readable v = true -> Get v k = Return (prop v k).
Proof. destruct v; cbn; intro H; try discriminate H; reflexivity. Qed.

Lemma Get_unreadable (v : JSValue) (k : JSString) :
  readable v = false -> Get v k = Throw TypeError.
Proof. destruct v; cbn; intro H; try discriminate H; reflexivity. Qed.

Lemma length_is_readable (v : JSValue) (k : nat) :
  readable v = true -> length_is v k = Return (has_length v k).
Proof.
  unfold has_length. destruct v; cbn; intro H; try discriminate H; reflexivity.
Qed.

Lemma length_is_unreadable (v : JSValue) (k : nat) :
  readable v = false -> length_is v k = Throw TypeError.
Proof. destruct v; cbn; intro H; try discriminate H; reflexivity. Qed.

(** One vertex: the three coordinates are pushed once the vertex can be
    read, the normal once [face.normal] can. *)
Lemma vertexCallback_runs (face vertex : JSValue) (b : Buffers) :
  readable face = true ->
  vertexCallback face vertex b =
  let pos := [prop vertex (js "x"); prop vertex (js "y"); prop vertex (js "z")] in
  let n := prop face (js "normal") in
  if readable vertex then
    if readable n then
      (push_normals [prop n (js "x"); prop n (js "y"); prop n (js "z")] (push_vertices pos b),
       Return tt)
    else (push_vertices pos b, Throw TypeError)
  else (b, Throw TypeError).
Proof.
  intro Hf. unfold vertexCallback. run. cbv zeta.
  destruct (readable vertex) eqn:Hv.
  - rewrite !(Get_readable vertex _ Hv), !(Get_readable face _ Hf).
    destruct (readable (prop face (js "normal"))) eqn:Hn.
    + rewrite !(Get_readable _ _ Hn). reflexivity.
    + rewrite !(Get_unreadable _ _ Hn). reflexivity.
  - rewrite !(Get_unreadable vertex _ Hv). reflexivity.
Qed.

Lemma vertices_loop_runs (face : JSValue) (l : list JSValue) (i : nat) (b : Buffers) :
  readable face = true ->
  let n := prop face (js "normal") in
  if forallb (fun vertex => readable vertex && readable n) l
  then forEach_from (fun vertex _ => vertexCallback face vertex) i l b =
       ({| b_vertices :=
             b_vertices b
             ++ flat_map (fun vertex => [prop vertex (js "x"); prop vertex (js "y");
                                         prop vertex (js "z")]) l;
           b_normals :=
             b_normals b
             ++ flat_map (fun _ => [prop n (js "x"); prop n (js "y"); prop n (js "z")]) l;
           b_indices := b_indices b;
           vertexIndex := vertexIndex b |}, Return tt)
  else exists b', forEach_from (fun vertex _ => vertexCallback face vertex) i l b
                  = (b', Throw TypeError).
Proof.
  intros Hf n. destruct (readable n) eqn:Hn.
  - revert i b. induction l as [|v l IH]; intros i b.
    + cbn. rewrite !app_nil_r. destruct b; reflexivity.
    + cbn [forallb forEach_from]. unfold bind.
      rewrite (vertexCallback_runs face v b Hf). cbv zeta. fold n. rewrite Hn.
      destruct (readable v); cbn [andb]; [|eexists; reflexivity].
      specialize (IH (S i) (push_normals [prop n (js "x"); prop n (js "y"); prop n (js "z")]
                             (push_vertices [prop v (js "x"); prop v (js "y");
                                             prop v (js "z")] b))).
      destruct (forallb (fun vertex => readable vertex && true) l).
      * rewrite IH. cbn [flat_map push_normals push_vertices b_vertices b_normals b_indices
                         vertexIndex]. rewrite <- !app_assoc. reflexivity.
      * exact IH.
  - destruct l as [|v l].
    + cbn. rewrite !app_nil_r. destruct b; reflexivity.
    + cbn [forallb forEach_from]. unfold bind.
      rewrite (vertexCallback_runs face v b Hf). cbv zeta. fold n. rewrite Hn.
      rewrite andb_false_r. cbn [andb]. destruct (readable v); eexists; reflexivity.
Qed.

(** One face: it runs exactly when [face_runs] says so, and then appends
    [face_positions] and [face_normals]. *)
Lemma faceCallback_runs (face : JSValue) (b : Buffers) :
  if face_runs face
  then exists b', faceCallback face b = (b', Return tt)
                  /\ b_vertices b' = b_vertices b ++ face_positions face
                  /\ b_normals b' = b_normals b ++ face_normals face
  else exists b', faceCallback face b = (b', Throw TypeError).
Proof.
  unfold face_runs, face_positions, face_normals, visited, faceCallback. run.
  destruct (readable face) eqn:Hf; cbn [andb];
    [|rewrite (Get_unreadable face _ Hf); eexists; reflexivity].
  rewrite !(Get_readable face _ Hf).
  set (vs := prop face (js "vertices")).
  destruct (readable vs) eqn:Hv; cbn [andb];
    [|rewrite (length_is_unreadable vs _ Hv); eexists; reflexivity].
  rewrite !(length_is_readable vs _ Hv).
  destruct (has_length vs 4) eqn:H4; cbn [orb].
  - destruct vs as [| | | | |l|]; cbn [forEach andb]; unfold lift;
      try (eexists; reflexivity).
    pose proof (vertices_loop_runs face l 0 b Hf) as L. cbv zeta in L.
    destruct (forallb _ l).
    + rewrite L. eexists. split; [reflexivity|]. split; reflexivity.
    + destruct L as (b' & L). rewrite L. eexists; reflexivity.
  - destruct (has_length vs 3) eqn:H3.
    + destruct vs as [| | | | |l|]; cbn [forEach andb]; unfold lift;
        try (eexists; reflexivity).
      pose proof (vertices_loop_runs face l 0 b Hf) as L. cbv zeta in L.
      destruct (forallb _ l).
      * rewrite L. eexists. split; [reflexivity|]. split; reflexivity.
      * destruct L as (b' & L). rewrite L. eexists; reflexivity.
    + cbn [andb forallb flat_map]. exists b. rewrite !app_nil_r. auto.
Qed.

Lemma faces_loop_runs (fs : list JSValue) (i : nat) (b : Buffers) :
  if forallb face_runs fs
  then exists b', forEach_from (fun face _ => faceCallback face) i fs b = (b', Return tt)
                  /\ b_vertices b' = b_vertices b ++ flat_map face_positions fs
                  /\ b_normals b' = b_normals b ++ flat_map face_normals fs
  else exists b', forEach_from (fun face _ => faceCallback face) i fs b
                  = (b', Throw TypeError).
Proof.
  revert i b. induction fs as [|face fs IH]; intros i b.
  - cbn. exists b. rewrite !app_nil_r. auto.
  - cbn [forallb forEach_from flat_map]. unfold bind.
    pose proof (faceCallback_runs face b) as F.
    destruct (face_runs face); cbn [andb].
    + destruct F as (b1 & F & Fv & Fn). rewrite F.
      specialize (IH (S i) b1). destruct (forallb face_runs fs).
      * destruct IH as (b2 & L & Lv & Ln). exists b2. split; [exact L|].
        rewrite Lv, Ln, Fv, Fn, <- !app_assoc. auto.
      * exact IH.
    + destruct F as (b1 & F). rewrite F. eexists; reflexivity.
Qed.

(** The builder returns exactly on the objects [object_accepted] takes. *)
Lemma createMeshFromObject_runs (object : JSValue) :
  readable object = true ->
  if object_accepted object
  then exists g, createMeshFromObject object = Return g
  else createMeshFromObject object = Throw TypeError.
Proof.
  intro Ho. unfold object_accepted, createMeshFromObject, buildBuffers, colorSeed,
            Float32BufferAttribute.
  rewrite !(Get_readable object _ Ho).
  destruct (prop object (js "faces")) as [| | | | |fs|]; cbn [forEach andb]; unfold lift;
    try reflexivity.
  pose proof (faces_loop_runs fs 0 emptyBuffers) as L.
  destruct (forallb face_runs fs); cbn [andb].
  - destruct L as (b & L & Lv & Ln). rewrite L, Lv, Ln. cbn [b_vertices b_normals emptyBuffers app].
    destruct (existsb toPrimitive_throws (flat_map face_positions fs)); cbn [negb andb];
      [reflexivity|].
    destruct (existsb toPrimitive_throws (flat_map face_normals fs)); cbn [negb andb];
      [reflexivity|].
    destruct (truthy (prop object (js "name")) && toPrimitive_throws (prop object (js "name")));
      cbn [negb]; [reflexivity|eexists; reflexivity].
  - destruct L as (b & L). rewrite L. reflexivity.
Qed.

Lemma own_app_last (k : JSString) (w : JSValue) (props : list (JSString * JSValue)) :
  str_eqb k k = true -> own k (props ++ [(k, w)]) = Some w.
Proof.
  intro H. induction props as [|[k0 v0] props IH].
  - cbn. rewrite H. reflexivity.
  - cbn [app own]. rewrite IH. reflexivity.
Qed.

(** The copy the object callback hands to the builder has the [faces] of
    the element and a truthy name. *)
Lemma withName_runs (obj : JSValue) (index : nat) :
  if readable obj
  then exists object,
         withName obj index = Return object
         /\ readable object = true
         /\ prop object (js "faces") = prop obj (js "faces")
         /\ prop object (js "name")
            = (if truthy (prop obj (js "name")) then prop obj (js "name")
               else JStr (objectName index))
  else withName obj index = Throw TypeError.
Proof.
  unfold withName. destruct (readable obj) eqn:Ho.
  - rewrite (Get_readable obj _ Ho). eexists. split; [reflexivity|].
    split; [reflexivity|]. cbn [prop]. split.
    + rewrite own_app_other by reflexivity.
      destruct obj; cbn [ownProperties prop own]; try reflexivity.
      * rewrite own_indexed_faces. reflexivity.
      * rewrite own_indexed_faces. reflexivity.
    + rewrite own_app_last by reflexivity. reflexivity.
  - rewrite (Get_unreadable obj _ Ho). reflexivity.
Qed.

Lemma objectName_truthy (index : nat) :
  truthy (JStr (objectName index)) = true.
Proof. reflexivity. Qed.

(** One element of [objects]: a group is added exactly when
    [object_accepted] takes the element. *)
Lemma objectCallback_runs (obj : JSValue) (index : nat) (s : Scene) :
  if object_accepted obj
  then exists g, objectCallback obj index s = (s ++ [MeshGroup g], Return tt)
  else objectCallback obj index s = (s, Throw TypeError).
Proof.
  unfold objectCallback, bind, lift, add, modify.
  pose proof (withName_runs obj index) as W.
  destruct (readable obj) eqn:Ho.
  - destruct W as (object & W & Hr & Hfaces & Hname). rewrite W.
    pose proof (createMeshFromObject_runs object Hr) as C.
    assert (E : object_accepted object = object_accepted obj).
    { unfold object_accepted. rewrite Hfaces, Hname.
      destruct (truthy (prop obj (js "name"))) eqn:T; [rewrite T; reflexivity|].
      rewrite objectName_truthy. cbn [toPrimitive_throws andb]. reflexivity. }
    rewrite E in C. destruct (object_accepted obj).
    + destruct C as (g & C). rewrite C. exists g. reflexivity.
    + rewrite C. reflexivity.
  - rewrite W.
    assert (E : object_accepted obj = false).
    { unfold object_accepted. destruct obj; try discriminate Ho; reflexivity. }
    rewrite E. reflexivity.
Qed.

Lemma objects_loop_runs (objs : list JSValue) (i : nat) (s : Scene) :
  if forallb object_accepted objs
  then exists s', forEach_from objectCallback i objs s = (s', Return tt)
  else exists s', forEach_from objectCallback i objs s = (s', Throw TypeError).
Proof.
  revert i s. induction objs as [|obj objs IH]; intros i s.
  - cbn. eexists; reflexivity.
  - cbn [forallb forEach_from]. unfold bind.
    pose proof (objectCallback_runs obj i s) as C.
    destruct (object_accepted obj); cbn [andb].
    + destruct C as (g & C). rewrite C. apply IH.
    + rewrite C. eexists; reflexivity.
Qed.

(** The rebuild of a parsed value runs to its end exactly when the value
    is [accepted]. *)
Lemma rebuild_runs (text : JSString) (data : JSValue) (scene : Scene) :
  JSON_parse text = Return data ->
  fails text scene = negb (accepted data).
Proof.
  intro Hp. unfold fails, accepted. rewrite (tryBlock_parsed text data scene Hp).
  destruct (readable data) eqn:Hd.
  - rewrite (Get_readable data _ Hd).
    destruct (prop data (js "objects")) as [| | | | |objs|]; cbn [forEach]; unfold lift;
      try reflexivity.
    pose proof (objects_loop_runs objs 0 fixtures) as L.
    destruct (forallb object_accepted objs); destruct L as (s' & L); rewrite L; reflexivity.
  - rewrite (Get_unreadable data _ Hd).
    destruct data; try discriminate Hd; reflexivity.
Qed.

Lemma face_runs_typed (f : Face) : face_runs (js_of_Face f) = true.
Proof.
  unfold face_runs, visited. cbn [js_of_Face prop own readable andb].
  change (str_eqb (js "vertices") (js "vertices")) with true.
  change (str_eqb (js "vertices") (js "normal")) with false.
  change (str_eqb (js "normal") (js "normal")) with true.
  cbn iota. cbn [readable js_of_Vertex andb].
  destruct (has_length _ 4 || has_length _ 3); cbn [andb].
  - induction (vertices f) as [|v vs IH]; [reflexivity|]. cbn [map forallb]. rewrite IH.
    reflexivity.
  - reflexivity.
Qed.

Lemma pushed_typed (f : Face) :
  forallb is_number (face_positions (js_of_Face f)) = true
  /\ forallb is_number (face_normals (js_of_Face f)) = true.
Proof.
  unfold face_positions, face_normals, visited. cbn [js_of_Face prop own].
  change (str_eqb (js "vertices") (js "vertices")) with true.
  change (str_eqb (js "vertices") (js "normal")) with false.
  change (str_eqb (js "normal") (js "normal")) with true.
  cbn iota.
  destruct (has_length _ 4 || has_length _ 3); [|split; reflexivity].
  split; induction (vertices f) as [|v vs IH]; try reflexivity;
    cbn [map flat_map forallb app]; rewrite ?forallb_app, IH; reflexivity.
Qed.

Lemma faces_typed (fs : list Face) :
  forallb face_runs (map js_of_Face fs) = true
  /\ forallb is_number (flat_map face_positions (map js_of_Face fs)) = true
  /\ forallb is_number (flat_map face_normals (map js_of_Face fs)) = true.
Proof.
  induction fs as [|f fs (IH1 & IH2 & IH3)]; [repeat split|].
  destruct (pushed_typed f) as [P N].
  cbn [map forallb flat_map]. rewrite !forallb_app, face_runs_typed, IH1, IH2, IH3, P, N.
  repeat split.
Qed.

Lemma object_accepted_typed (o : Object3D) : object_accepted (js_of_Object3D o) = true.
Proof.
  unfold object_accepted.
  assert (Hf : prop (js_of_Object3D o) (js "faces") = JArr (map js_of_Face (faces o))).
  { destruct o as [fs [s|]]; reflexivity. }
  assert (Hn : toPrimitive_throws (prop (js_of_Object3D o) (js "name")) = false).
  { destruct o as [fs [s|]]; reflexivity. }
  destruct (faces_typed (faces o)) as (F1 & F2 & F3).
  rewrite Hf, Hn, andb_false_r, F1, (numbers_convert _ F2), (numbers_convert _ F3).
  reflexivity.
Qed.

Lemma accepted_typed (d : SceneData) : accepted (js_of_SceneData d) = true.
Proof.
  unfold accepted. cbn [js_of_SceneData prop own].
  change (str_eqb (js "objects") (js "objects")) with true. cbn iota.
  induction (objects d) as [|o os IH]; [reflexivity|].
  cbn [map forallb]. rewrite object_accepted_typed, IH. reflexivity.
Qed.

(** C9, as stated, fails.  The value of this text has an [objects] array
    whose one object has one face with the numbers 1, 2, 3 for vertices and
    5 for a normal: no [SceneData] has that value.  Reading [x] off a number
    gives [undefined] without throwing, so the submission runs to its end
    and the error slot is empty. *)
Lemma invalid_submission_leaves_slot_empty :
  let data := JObj [(js "objects",
                JArr [JObj [(js "faces",
                  JArr [JObj [(js "vertices", JArr [JNum 1; JNum 2; JNum 3]);
                              (js "normal", JNum 5)]])]])] in
  JSON_parse illShapedText = Return data
  /\ (forall d : SceneData, js_of_SceneData d <> data)
  /\ accepted data = true
  /\ error (submit illShapedText mountedViewer) = [].
Proof.
  intro data. split; [reflexivity|]. split; [|split; reflexivity].
  intros [os] H. unfold data in H. injection H as H.
  destruct os as [|[fs nm] os]; [discriminate H|].
  cbn [map] in H. injection H as H _ _.
  destruct fs as [|f fs]; [discriminate H|].
  cbn [map] in H. injection H as _ H _.
  discriminate H.
Qed.

(** C9, amended.  After a submission the error slot is empty or holds the
    static message.  It holds the message exactly when the text is not JSON
    or its value is one the rebuild does not accept, and is empty exactly
    when the text is JSON and the rebuild accepts its value.  Every value
    of the [SceneData] shape is accepted, so a valid submission clears the
    slot; values of other shapes are accepted too, so an empty slot does
    not tell that the submission was valid. *)
Theorem error_slot_tracks_failure (text : JSString) (v : Viewer) (scene : Scene) :
  sceneRef v = Some scene ->
  (error (submit text v) = [] \/ error (submit text v) = errorMessage)
  /\ (error (submit text v) <> [] <->
      JSON_parse text = Throw SyntaxError
      \/ exists data, JSON_parse text = Return data /\ accepted data = false)
  /\ (error (submit text v) = [] <->
      exists data, JSON_parse text = Return data /\ accepted data = true)
  /\ (forall d : SceneData,
      JSON_parse text = Return (js_of_SceneData d) -> error (submit text v) = []).
Proof.
  intro Hs. rewrite (submit_unfold text v scene Hs). cbn [error].
  destruct (JSON_parse text) as [data|e] eqn:Hp.
  - rewrite (rebuild_runs text data scene Hp).
    destruct (accepted data) eqn:Ha; cbn [negb].
    + split; [left; reflexivity|]. split; [|split].
      * split; [intro H; contradiction H; reflexivity|].
        intros [H|(data' & H & Ha')]; [discriminate H|]. congruence.
      * split; [intros _; exists data; auto|reflexivity].
      * reflexivity.
    + split; [right; reflexivity|]. split; [|split].
      * split; [intros _; right; exists data; auto|intros _; apply errorMessage_nonempty].
      * split; [intro H; discriminate H|].
        intros (data' & H & Ha'). congruence.
      * intros d H. assert (E : data = js_of_SceneData d) by congruence.
        rewrite E, accepted_typed in Ha. discriminate Ha.
  - pose proof (JSON_parse_throws _ _ Hp) as ->.
    rewrite (syntax_error_fails text scene Hp).
    split; [right; reflexivity|]. split; [|split].
    + split; [intros _; left; reflexivity|intros _; apply errorMessage_nonempty].
    + split; [intro H; discriminate H|]. intros (data & H & _). discriminate H.
    + intros d H. discriminate H.
Qed.

(** A text that is not JSON sets the slot; the valid submission after it
    clears the slot again. *)
Lemma error_slot_tracks_failure_witness :
  sceneRef mountedViewer = Some mountedScene
  /\ error (submit (js "{not json") mountedViewer) = errorMessage
  /\ error (submit emptyObjectsText (submit (js "{not json") mountedViewer)) = [].
Proof.
  split; [reflexivity|]. split.
  - destruct (error_slot_tracks_failure (js "{not json") mountedViewer mountedScene eq_refl)
      as ([H|H] & H1 & _); [|exact H].
    exfalso. apply (proj2 H1); [left; reflexivity|exact H].
  - destruct (error_slot_tracks_failure emptyObjectsText
                (submit (js "{not json") mountedViewer) mountedScene eq_refl)
      as (_ & _ & _ & H).
    apply (H {| objects := [] |}). reflexivity.
Defined.

End ShapeFacts.
(** ** The wheel handler *)

Section Binary64Order.
Local Open Scope float_scope.

Lemma SFcompare_antisym (a b : spec_float) (c : comparison) :
  SFcompare a b = Some c -> SFcompare b a = Some (CompOpp c).
Proof.
  destruct a as [sa|sa| |sa ma ea], b as [sb|sb| |sb mb eb]; cbn;
    try discriminate;
    try (destruct sa; intro H; injection H as <-; reflexivity);
    try (destruct sb; intro H; injection H as <-; reflexivity);
    try (intro H; injection H as <-; reflexivity).
  - destruct sa, sb; intro H; injection H as <-; reflexivity.
  - intro H. injection H as <-. f_equal.
    rewrite (Z.compare_antisym ea eb).
    change (Pos.compare_cont Eq mb ma) with (Pos.compare mb ma).
    change (Pos.compare_cont Eq ma mb) with (Pos.compare ma mb).
    rewrite (Pos.compare_antisym ma mb).
    destruct sa, sb; try reflexivity;
      destruct (Z.compare ea eb); cbn; try reflexivity;
      destruct (Pos.compare ma mb); reflexivity.
Qed.

Lemma SFcompare_refl (a : spec_float) :
  a <> S754_nan -> SFcompare a a = Some Eq.
Proof.
  destruct a as [s|s| |s m e]; cbn; intro H; try reflexivity.
  - destruct s; reflexivity.
  - contradiction H; reflexivity.
  - rewrite Z.compare_refl. change (Pos.compare_cont Eq m m) with (Pos.compare m m).
    rewrite Pos.compare_refl. destruct s; reflexivity.
Qed.

Lemma SFcompare_none (a b : spec_float) :
  SFcompare a b = None <-> a = S754_nan \/ b = S754_nan.
Proof.
  destruct a as [sa|sa| |sa ma ea], b as [sb|sb| |sb mb eb]; cbn; split;
    try discriminate; try (intros [H|H]; discriminate H); auto.
Qed.

Lemma is_nan_Prim2SF (x : float) :
  PrimFloat.is_nan x = true <-> Prim2SF x = S754_nan.
Proof.
  unfold PrimFloat.is_nan. rewrite FloatAxioms.eqb_spec. unfold SFeqb. split.
  - intro H. destruct (Prim2SF x) as [s|s| |s m e] eqn:E; try reflexivity;
      rewrite SFcompare_refl in H by discriminate; discriminate H.
  - intros ->. reflexivity.
Qed.

Lemma not_nan_Prim2SF (x : float) :
  PrimFloat.is_nan x = false <-> Prim2SF x <> S754_nan.
Proof.
  rewrite <- is_nan_Prim2SF. destruct (PrimFloat.is_nan x); split; congruence.
Qed.

Lemma ltb_leb (x y : float) : (x <? y) = true -> (x <=? y) = true.
Proof.
  rewrite FloatAxioms.ltb_spec, FloatAxioms.leb_spec. unfold SFltb, SFleb.
  destruct (SFcompare (Prim2SF x) (Prim2SF y)) as [[| |]|]; congruence.
Qed.

Lemma leb_not_ltb (x y : float) : (x <=? y) = true -> (y <? x) = false.
Proof.
  rewrite FloatAxioms.ltb_spec, FloatAxioms.leb_spec. unfold SFltb, SFleb.
  destruct (SFcompare (Prim2SF x) (Prim2SF y)) as [c|] eqn:E; [|discriminate].
  rewrite (SFcompare_antisym _ _ _ E). destruct c; cbn; congruence.
Qed.

Lemma not_ltb_leb (x y : float) :
  PrimFloat.is_nan x = false -> PrimFloat.is_nan y = false ->
  (y <? x) = false -> (x <=? y) = true.
Proof.
  rewrite !not_nan_Prim2SF, FloatAxioms.ltb_spec, FloatAxioms.leb_spec. unfold SFltb, SFleb. intros Hx Hy.
  destruct (SFcompare (Prim2SF y) (Prim2SF x)) as [c|] eqn:E.
  - rewrite (SFcompare_antisym _ _ _ E). destruct c; cbn; congruence.
  - apply SFcompare_none in E. tauto.
Qed.

(** A number that compares equal to a finite number other than zero is
    that number. *)
Lemma compare_eq_finite (x y : float) (s : bool) (m : positive) (e : Z) :
  Prim2SF y = S754_finite s m e ->
  (x <? y) = false -> (y <? x) = false -> PrimFloat.is_nan x = false ->
  x = y.
Proof.
  rewrite not_nan_Prim2SF, !FloatAxioms.ltb_spec. unfold SFltb. intros Hy H1 H2 Hx.
  apply Prim2SF_inj. rewrite Hy in *.
  destruct (SFcompare (Prim2SF x) (S754_finite s m e)) as [c|] eqn:E.
  - rewrite (SFcompare_antisym _ _ _ E) in H2.
    destruct c; cbn in H2; try discriminate.
    destruct (Prim2SF x) as [sx|sx| |sx mx ex]; cbn in E.
    + destruct s; discriminate E.
    + destruct sx; discriminate E.
    + discriminate E.
    + injection E as E. destruct sx, s; try discriminate E.
      * destruct (Z.compare_spec ex e); try discriminate E. subst.
        change (Pos.compare_cont Eq mx m) with (Pos.compare mx m) in E.
        destruct (Pos.compare_spec mx m); try discriminate E. subst. reflexivity.
      * destruct (Z.compare_spec ex e); try discriminate E. subst.
        change (Pos.compare_cont Eq mx m) with (Pos.compare mx m) in E.
        destruct (Pos.compare_spec mx m); try discriminate E. subst. reflexivity.
  - apply SFcompare_none in E. destruct E as [E|E]; [contradiction|discriminate E].
Qed.

End Binary64Order.

Section WheelFacts.
Import Camera64 Wheel64.
Local Open Scope float_scope.
Set Warnings "-inexact-float".

Lemma Math_min_nan (a x : float) :
  PrimFloat.is_nan x = true -> Math_min a x = nan.
Proof. intro H. unfold Math_min. rewrite H, orb_true_r. reflexivity. Qed.

(** [Math.max(0.1, Math.min(100, x))] is within the two bounds for every
    [x] that is a number. *)
Lemma clamp_within (x : float) :
  PrimFloat.is_nan x = false ->
  (0.1 <=? Math_max 0.1 (Math_min 100 x)) = true
  /\ (Math_max 0.1 (Math_min 100 x) <=? 100) = true.
Proof.
  intro Hx.
  assert (M : Math_min 100 x = 100
              \/ (Math_min 100 x = x /\ (x <=? 100) = true)).
  { unfold Math_min. rewrite Hx. cbn [orb PrimFloat.is_nan].
    change (PrimFloat.is_nan 100) with false. cbn [orb].
    destruct (100 <? x) eqn:H1; [left; reflexivity|].
    destruct (x <? 100) eqn:H2; [right; split; [reflexivity|apply ltb_leb, H2]|].
    change (PrimFloat.get_sign 100) with false. cbn iota.
    right. split; [reflexivity|].
    apply not_ltb_leb; [exact Hx|reflexivity|exact H1]. }
  destruct M as [->|[-> Hle]]; [vm_compute; auto|].
  unfold Math_max. rewrite Hx. change (PrimFloat.is_nan 0.1) with false. cbn [orb].
  destruct (0.1 <? x) eqn:H1; [split; [apply ltb_leb, H1|exact Hle]|].
  destruct (x <? 0.1) eqn:H2; [vm_compute; auto|].
  change (PrimFloat.get_sign 0.1) with false. cbn iota. vm_compute; auto.
Qed.

(** Between the two bounds the clamp changes nothing. *)
Lemma clamp_inside (x : float) :
  (0.1 <=? x) = true -> (x <=? 100) = true ->
  Math_max 0.1 (Math_min 100 x) = x.
Proof.
  intros Hlo Hhi.
  assert (Hx : PrimFloat.is_nan x = false).
  { apply not_nan_Prim2SF. intro E. rewrite FloatAxioms.leb_spec, E in Hhi. discriminate Hhi. }
  assert (M : Math_min 100 x = x).
  { unfold Math_min. rewrite Hx. change (PrimFloat.is_nan 100) with false. cbn [orb].
    rewrite (leb_not_ltb _ _ Hhi). destruct (x <? 100); reflexivity. }
  rewrite M. unfold Math_max. rewrite Hx. change (PrimFloat.is_nan 0.1) with false.
  cbn [orb]. destruct (0.1 <? x) eqn:H1; [reflexivity|].
  rewrite (leb_not_ltb _ _ Hlo). change (PrimFloat.get_sign 0.1) with false. cbn iota.
  symmetry.
  apply (compare_eq_finite x 0.1 false 7205759403792794 (-56));
    [reflexivity|apply (leb_not_ltb _ _ Hlo)|exact H1|exact Hx].
Qed.

Lemma clamp_below (x : float) :
  (x <? 0.1) = true -> Math_max 0.1 (Math_min 100 x) = 0.1.
Proof.
  intro H.
  assert (Hx : PrimFloat.is_nan x = false).
  { apply not_nan_Prim2SF. intro E. rewrite FloatAxioms.ltb_spec, E in H. discriminate H. }
  assert (H100 : (x <? 100) = true).
  { rewrite FloatAxioms.ltb_spec in *. unfold SFltb in *.
    change (Prim2SF 0.1) with (S754_finite false 7205759403792794 (-56)) in H.
    change (Prim2SF 100) with (S754_finite false 7036874417766400 (-46)).
    destruct (Prim2SF x) as [s|s| |s m e]; cbv beta iota delta [SFcompare] in H |- *.
    - reflexivity.
    - destruct s; [reflexivity|discriminate H].
    - discriminate H.
    - destruct s; [reflexivity|].
      destruct (Z.compare_spec e (-56)) as [E|He|He]; try discriminate H.
      + rewrite E. reflexivity.
      + destruct (Z.compare_spec e (-46)) as [E|He'|He']; try reflexivity; lia. }
  assert (M : Math_min 100 x = x).
  { unfold Math_min. rewrite Hx. change (PrimFloat.is_nan 100) with false. cbn [orb].
    rewrite (leb_not_ltb _ _ (ltb_leb _ _ H100)), H100. reflexivity. }
  rewrite M. unfold Math_max. rewrite Hx. change (PrimFloat.is_nan 0.1) with false.
  cbn [orb]. rewrite (leb_not_ltb _ _ (ltb_leb _ _ H)), H. reflexivity.
Qed.

Lemma clamp_above (x : float) :
  (100 <? x) = true -> Math_max 0.1 (Math_min 100 x) = 100.
Proof.
  intro H.
  assert (Hx : PrimFloat.is_nan x = false).
  { apply not_nan_Prim2SF. intro E. rewrite FloatAxioms.ltb_spec, E in H.
    destruct (Prim2SF 100); discriminate H. }
  assert (M : Math_min 100 x = 100).
  { unfold Math_min. rewrite Hx. change (PrimFloat.is_nan 100) with false. cbn [orb].
    rewrite H. reflexivity. }
  rewrite M. reflexivity.
Qed.




(** X18. A wheel event whose [deltaY] is not positive (zero of either
    sign, negative, or not a number) zooms in: it does what an event with
    [deltaY = -1] does. *)
Theorem wheel_nonpositive_delta_zooms_in (e : WheelEvent) (p : Vector3) :
  (deltaY e <=? 0) = true \/ PrimFloat.is_nan (deltaY e) = true ->
  handleWheel e (Some p) = handleWheel {| deltaY := -1 |} (Some p)
  /\ handleWheel e (Some p)
     = Some (multiplyScalar
               (Math_max 0.1 (Math_min 100 (length p * 0.9090909090909091)))
               (normalize p)).
Proof.
  intro H.
  assert (E : (0 <? deltaY e) = false).
  { destruct H as [H|H]; [apply leb_not_ltb, H|].
    apply is_nan_Prim2SF in H. rewrite FloatAxioms.ltb_spec, H. reflexivity. }
  unfold handleWheel, zoom. cbn [deltaY]. rewrite E.
  split; reflexivity.
Qed.

(** An event with [deltaY = 0] moves the mounted camera closer. *)
Lemma wheel_nonpositive_delta_zooms_in_witness :
  handleWheel {| deltaY := 0 |} (Some mounted)
  = Some {| x := 0; y := 0; z := 4.545454545454545 |}.
Proof.
  destruct (wheel_nonpositive_delta_zooms_in {| deltaY := 0 |} mounted) as [_ H].
  - left. reflexivity.
  - rewrite H. vm_compute. reflexivity.
Defined.

End WheelFacts.
